(** * PaSCo: sinusoidal position encodings

    A shallow embedding of [pasco/models/transformer/position_encoding.py]:
    the dense encoder [PositionEmbeddingSine] (voxel grids) and the sparse
    encoder [PositionEmbeddingSineSparse] (point lists).

    Modelling choices.
    - A torch tensor is a shape together with an element accessor; the
      tensor operations the source calls ([cumsum], slicing, [None]
      indexing, broadcasting arithmetic, [stack], [flatten], [cat],
      [permute]) are embedded one by one with torch's indexing rules, and
      [forward] is written with them line by line.
    - Operations that raise in torch return [inl] of an [error].
    - Float values are idealised as real numbers: [sin], [cos], division and
      the power function are those of [R].  Rounding, overflow, infinities
      and NaN are outside the model. *)

From Stdlib Require Import String List Arith Lia Bool ZArith Reals Lra.
Import ListNotations.

(** ** Exceptions *)

Inductive error : Type :=
| ValueError (msg : string)
| RuntimeError (msg : string)
| IndexError (msg : string).

Definition result (A : Type) : Type := (error + A)%type.

Definition ret {A : Type} (a : A) : result A := inr a.

Definition raise {A : Type} (e : error) : result A := inl e.

Definition bind {A B : Type} (c : result A) (k : A -> result B) : result B :=
  match c with
  | inl e => inl e
  | inr a => k a
  end.

Declare Scope result_scope.
Delimit Scope result_scope with result.
Notation "x <- c ;; k" := (bind c (fun x => k))
  (at level 61, c at next level, right associativity) : result_scope.
Local Open Scope result_scope.

(** ** Index lists *)

(** [set_nth d k idx]: [idx] with its [d]-th component replaced by [k]. *)
Fixpoint set_nth (d k : nat) (idx : list nat) : list nat :=
  match d, idx with
  | _, [] => []
  | O, _ :: r => k :: r
  | S d', i :: r => i :: set_nth d' k r
  end.

(** [insert_at d k idx]: [k] inserted before position [d]. *)
Fixpoint insert_at (d k : nat) (idx : list nat) : list nat :=
  match d, idx with
  | O, _ => k :: idx
  | S _, [] => [k]
  | S d', i :: r => i :: insert_at d' k r
  end.

(** [remove_at d idx]: [idx] without its [d]-th component. *)
Fixpoint remove_at (d : nat) (idx : list nat) : list nat :=
  match d, idx with
  | _, [] => []
  | O, _ :: r => r
  | S d', i :: r => i :: remove_at d' r
  end.

Definition prod_list (s : list nat) : nat := fold_right Nat.mul 1 s.

(** Row-major multi-index of the flat position [i] in a block of shape [s]. *)
Fixpoint unravel (s : list nat) (i : nat) : list nat :=
  match s with
  | [] => []
  | _ :: r => (i / prod_list r) :: unravel r (i mod prod_list r)
  end.

(** ** Tensors *)

Record tensor (A : Type) : Type := mkTensor {
  shape : list nat;
  data : list nat -> A
}.

Arguments mkTensor {A} shape data.
Arguments shape {A} t.
Arguments data {A} t idx.

Definition dim {A : Type} (t : tensor A) : nat := length (shape t).

(** [t.size(k)] *)
Definition size {A : Type} (t : tensor A) (k : nat) : result nat :=
  match nth_error (shape t) k with
  | Some n => ret n
  | None => raise (IndexError "Dimension out of range")
  end.

(** [torch.zeros(shape, dtype=torch.bool)] *)
Definition zeros (s : list nat) : tensor bool := mkTensor s (fun _ => false).

(** Elementwise operations with a scalar, [.sin()], [.cos()], [~], [.float()]. *)
Definition tmap {A B : Type} (f : A -> B) (t : tensor A) : tensor B :=
  mkTensor (shape t) (fun idx => f (data t idx)).

(** [torch.arange(n, dtype=torch.float)] *)
Definition arange (n : nat) : tensor R :=
  mkTensor [n] (fun idx => INR (nth 0 idx 0)).

Fixpoint sum_upto (f : nat -> R) (n : nat) : R :=
  match n with
  | O => f O
  | S n' => (sum_upto f n' + f n)%R
  end.

(** [t.cumsum(d)]: inclusive running sum along dimension [d]. *)
Definition cumsum (d : nat) (t : tensor R) : result (tensor R) :=
  if d <? dim t then
    ret (mkTensor (shape t)
           (fun idx => sum_upto (fun k => data t (set_nth d k idx)) (nth d idx 0)))
  else raise (IndexError "Dimension out of range").

(** Python's normalisation of the start of a slice with positive step over
    a dimension of extent [n]. *)
Definition norm_start (n : nat) (start : Z) : nat :=
  if (start <? 0)%Z then Z.to_nat (Z.max 0 (Z.of_nat n + start))
  else Nat.min (Z.to_nat start) n.

Definition slice_len (n start step : nat) : nat := (n - start + (step - 1)) / step.

(** [t[..., start::step, ...]] along dimension [d] (no stop bound). *)
Definition slice_from {A : Type} (d : nat) (start : Z) (step : nat) (t : tensor A)
  : tensor A :=
  let n := nth d (shape t) 0 in
  let s := norm_start n start in
  mkTensor (set_nth d (slice_len n s step) (shape t))
    (fun idx => data t (set_nth d (s + step * nth d idx 0) idx)).

(** [t[..., i, ...]]: integer index [i] at dimension [d], which disappears. *)
Definition select {A : Type} (d i : nat) (t : tensor A) : result (tensor A) :=
  if i <? nth d (shape t) 0 then
    ret (mkTensor (remove_at d (shape t)) (fun idx => data t (insert_at d i idx)))
  else raise (IndexError "index is out of bounds").

(** [t[..., None, ...]]: a new dimension of extent 1 at position [d]. *)
Definition unsqueeze {A : Type} (d : nat) (t : tensor A) : tensor A :=
  mkTensor (insert_at d 1 (shape t)) (fun idx => data t (remove_at d idx)).

(** *** Broadcasting *)

Definition bcast_dim (a b : nat) : option nat :=
  if a =? b then Some a
  else if a =? 1 then Some b
  else if b =? 1 then Some a
  else None.

(** Shapes are aligned at their last dimension; the arguments are reversed. *)
Fixpoint bcast_rev (s1 s2 : list nat) : option (list nat) :=
  match s1, s2 with
  | [], s => Some s
  | s, [] => Some s
  | a :: s1', b :: s2' =>
      match bcast_dim a b, bcast_rev s1' s2' with
      | Some n, Some r => Some (n :: r)
      | _, _ => None
      end
  end.

Definition broadcast_shapes (s1 s2 : list nat) : option (list nat) :=
  option_map (@rev nat) (bcast_rev (rev s1) (rev s2)).

Fixpoint bidx_aligned (s idx : list nat) : list nat :=
  match s, idx with
  | n :: s', i :: idx' => (if n =? 1 then 0 else i) :: bidx_aligned s' idx'
  | _, _ => []
  end.

(** The index at which an operand of shape [s] is read for the output
    index [idx]: leading dimensions are dropped, extent-1 dimensions read 0. *)
Definition bidx (s idx : list nat) : list nat :=
  bidx_aligned s (skipn (length idx - length s) idx).

(** Elementwise binary operation with broadcasting ([a / b]). *)
Definition broadcast2 {A B C : Type} (f : A -> B -> C) (a : tensor A) (b : tensor B)
  : result (tensor C) :=
  match broadcast_shapes (shape a) (shape b) with
  | Some s =>
      ret (mkTensor s
             (fun idx => f (data a (bidx (shape a) idx)) (data b (bidx (shape b) idx))))
  | None => raise (RuntimeError "The size of tensor a must match the size of tensor b")
  end.

(** *** Joining *)

Definition shape_eqb (s1 s2 : list nat) : bool :=
  if list_eq_dec Nat.eq_dec s1 s2 then true else false.

(** [torch.stack((a, b), dim=d)] *)
Definition stack2 {A : Type} (a b : tensor A) (d : nat) : result (tensor A) :=
  if shape_eqb (shape a) (shape b) then
    if d <=? dim a then
      ret (mkTensor (insert_at d 2 (shape a))
             (fun idx =>
                match nth d idx 0 with
                | O => data a (remove_at d idx)
                | _ => data b (remove_at d idx)
                end))
    else raise (IndexError "Dimension out of range")
  else raise (RuntimeError "stack expects each tensor to be equal size").

(** [t.flatten(d)]: dimensions [d ..] merged into one, row-major. *)
Definition flatten {A : Type} (d : nat) (t : tensor A) : result (tensor A) :=
  if d <? dim t then
    ret (mkTensor (firstn d (shape t) ++ [prod_list (skipn d (shape t))])
           (fun idx => data t (firstn d idx ++ unravel (skipn d (shape t)) (nth d idx 0))))
  else raise (IndexError "Dimension out of range").

(** [torch.cat((a, b, c), dim=d)] *)
Definition cat3 {A : Type} (a b c : tensor A) (d : nat) : result (tensor A) :=
  if d <? dim a then
    if shape_eqb (remove_at d (shape a)) (remove_at d (shape b))
       && shape_eqb (remove_at d (shape a)) (remove_at d (shape c))
       && (dim b =? dim a) && (dim c =? dim a) then
      let na := nth d (shape a) 0 in
      let nb := nth d (shape b) 0 in
      let nc := nth d (shape c) 0 in
      ret (mkTensor (set_nth d (na + nb + nc) (shape a))
             (fun idx =>
                let i := nth d idx 0 in
                if i <? na then data a idx
                else if i <? na + nb then data b (set_nth d (i - na) idx)
                else data c (set_nth d (i - na - nb) idx)))
    else raise (RuntimeError "Sizes of tensors must match except in dimension")
  else raise (IndexError "Dimension out of range").

Fixpoint index_of (j : nat) (p : list nat) : nat :=
  match p with
  | [] => 0
  | q :: r => if q =? j then 0 else S (index_of j r)
  end.

Definition is_perm (p : list nat) : bool :=
  forallb (fun j => existsb (Nat.eqb j) p) (seq 0 (length p)).

(** [t.permute(p)]: output dimension [k] is input dimension [p[k]]. *)
Definition permute {A : Type} (p : list nat) (t : tensor A) : result (tensor A) :=
  if (length p =? dim t) && is_perm p then
    ret (mkTensor (map (fun j => nth j (shape t) 0) p)
           (fun idx => data t (map (fun j => nth (index_of j p) idx 0) (seq 0 (length p)))))
  else raise (RuntimeError "permute: dims do not match the tensor").

(** ** Scalars *)

Local Open Scope R_scope.

(** [eps = 1e-6] *)
Definition eps : R := 1e-6.

(** Conversion of a boolean to [torch.float]. *)
Definition float_of_bool (b : bool) : R := if b then 1 else 0.

(** [a // b] on floats: the floor of the quotient. *)
Definition floor_div (a b : R) : R := IZR (Int_part (a / b)).

(** [b ** e].  For a positive base this is the real power.  For base 0
    torch gives 1 at exponent 0 and 0 at positive exponents; for a negative
    base it gives 1 at exponent 0.  The exponents of the frequency table lie
    in [0, 1), so the only other case met by the encoders is a negative base
    with a fractional exponent, where torch gives NaN: it has no counterpart
    in [R], the value 0 stands in for it, and no statement below is made
    about a negative temperature. *)
Definition pow (b e : R) : R :=
  if Rlt_dec 0 b then Rpower b e
  else if Req_dec_T e 0 then 1
  else 0.

(** ** Configuration shared by the two encoders *)

Record config : Type := mkConfig {
  num_pos_feats : nat;
  temperature : R;
  normalize : bool;
  scale : R
}.

(** Lines 50-51 and 106-111: the frequency table
    [temperature ** (2 * (arange(num_pos_feats) // 2) / num_pos_feats)]. *)
Definition dim_t (self : config) : tensor R :=
  let dim_t := arange (num_pos_feats self) in
  tmap (fun e => pow (temperature self) e)
    (tmap (fun v => 2 * v / INR (num_pos_feats self))
       (tmap (fun v => floor_div v 2) dim_t)).

(** The expression
    [torch.stack((p[..., 0::2].sin(), p[..., 1::2].cos()), dim=d).flatten(d)]
    applied to each axis by both encoders (lines 57-65 with [d = 4], lines
    117-131 with [d = 1]). *)
Definition sin_cos (d : nat) (p : tensor R) : result (tensor R) :=
  s <- stack2 (tmap sin (slice_from d 0 2 p)) (tmap cos (slice_from d 1 2 p)) d ;;
  flatten d s.

Module PositionEmbeddingSine.

(** [__init__], lines 18-29. *)
Definition init (num_pos_feats : nat) (temperature : R) (normalize : bool)
  (scale : option R) : result config :=
  match scale, normalize with
  | Some _, false => raise (ValueError "normalize should be True if scale is passed")
  | _, _ =>
      let scale := match scale with None => 2 * PI | Some s => s end in
      ret (mkConfig num_pos_feats temperature normalize scale)
  end.

(** The expression [e / (e[..., -1:, ...] + eps) * self.scale] of lines
    46-48, the slice being taken along dimension [d]. *)
Definition normalize_axis (self : config) (d : nat) (e : tensor R) : result (tensor R) :=
  q <- broadcast2 Rdiv e (tmap (fun v => v + eps) (slice_from d (-1) 1 e)) ;;
  ret (tmap (fun v => v * scale self) q).

(** Lines 32-48 of [forward]: the three coordinate volumes
    [(x_embed, y_embed, z_embed)]. *)
Definition embed {A : Type} (self : config) (x : tensor A) (mask : option (tensor bool))
  : result (tensor R * tensor R * tensor R) :=
  mask <- match mask with
          | None =>
              s0 <- size x 0 ;; s2 <- size x 2 ;; s3 <- size x 3 ;; s4 <- size x 4 ;;
              ret (zeros [s0; s2; s3; s4])
          | Some m => ret m
          end ;;
  let not_mask := tmap negb mask in
  x_embed <- cumsum 1 (tmap float_of_bool not_mask) ;;
  y_embed <- cumsum 2 (tmap float_of_bool not_mask) ;;
  z_embed <- cumsum 3 (tmap float_of_bool not_mask) ;;
  if normalize self then
    x_embed <- normalize_axis self 1 x_embed ;;
    y_embed <- normalize_axis self 2 y_embed ;;
    z_embed <- normalize_axis self 3 z_embed ;;
    ret (x_embed, y_embed, z_embed)
  else ret (x_embed, y_embed, z_embed).

(** [forward], lines 31-68. *)
Definition forward {A : Type} (self : config) (x : tensor A) (mask : option (tensor bool))
  : result (tensor R) :=
  xyz <- embed self x mask ;;
  let '(x_embed, y_embed, z_embed) := xyz in
  let dim_t := dim_t self in
  pos_x <- broadcast2 Rdiv (unsqueeze 4 x_embed) dim_t ;;
  pos_y <- broadcast2 Rdiv (unsqueeze 4 y_embed) dim_t ;;
  pos_z <- broadcast2 Rdiv (unsqueeze 4 z_embed) dim_t ;;
  pos_x <- sin_cos 4 pos_x ;;
  pos_y <- sin_cos 4 pos_y ;;
  pos_z <- sin_cos 4 pos_z ;;
  pos <- cat3 pos_x pos_y pos_z 4 ;;
  permute [0; 4; 1; 2; 3]%nat pos.

End PositionEmbeddingSine.

Module PositionEmbeddingSineSparse.

(** [__init__], lines 77-88. *)
Definition init (num_pos_feats : nat) (temperature : R) (normalize : bool)
  (scale : option R) : result config :=
  match scale, normalize with
  | Some _, false => raise (ValueError "normalize should be True if scale is passed")
  | _, _ =>
      let scale := match scale with None => 2 * PI | Some s => s end in
      ret (mkConfig num_pos_feats temperature normalize scale)
  end.

(** The expression [e / (e + eps) * self.scale] of lines 102-104. *)
Definition normalize_axis (self : config) (e : tensor R) : result (tensor R) :=
  q <- broadcast2 Rdiv e (tmap (fun v => v + eps) e) ;;
  ret (tmap (fun v => v * scale self) q).

(** Lines 94-104 of [forward]: the three coordinate vectors
    [(x_embed, y_embed, z_embed)].  [coords.float()] is the identity on a
    real-valued tensor. *)
Definition embed (self : config) (coords : tensor R)
  : result (tensor R * tensor R * tensor R) :=
  x_embed <- select 1 0 coords ;;
  y_embed <- select 1 1 coords ;;
  z_embed <- select 1 2 coords ;;
  if normalize self then
    x_embed <- normalize_axis self x_embed ;;
    y_embed <- normalize_axis self y_embed ;;
    z_embed <- normalize_axis self z_embed ;;
    ret (x_embed, y_embed, z_embed)
  else ret (x_embed, y_embed, z_embed).

(** [forward], lines 90-135. *)
Definition forward (self : config) (coords : tensor R) : result (tensor R) :=
  xyz <- embed self coords ;;
  let '(x_embed, y_embed, z_embed) := xyz in
  let dim_t := dim_t self in
  pos_x <- broadcast2 Rdiv (unsqueeze 1 x_embed) dim_t ;;
  pos_y <- broadcast2 Rdiv (unsqueeze 1 y_embed) dim_t ;;
  pos_z <- broadcast2 Rdiv (unsqueeze 1 z_embed) dim_t ;;
  pos_x <- sin_cos 1 pos_x ;;
  pos_y <- sin_cos 1 pos_y ;;
  pos_z <- sin_cos 1 pos_z ;;
  cat3 pos_x pos_y pos_z 1.

End PositionEmbeddingSineSparse.

(** A coordinate tensor of shape [(N, 3)] given by its rows. *)
Definition of_rows (rows : list (R * R * R)) : tensor R :=
  mkTensor [length rows; 3%nat]
    (fun idx =>
       let '(a, b, c) := nth (nth 0 idx 0%nat) rows (0, 0, 0) in
       match nth 1 idx 0%nat with
       | O => a
       | S O => b
       | _ => c
       end).

(** ** Vocabulary of the statements *)

(** The value [sin_cos] leaves at feature position [k] of a row [p] of [F]
    pre-activations: the sines of the even bands fill the first half, the
    cosines of the odd bands the second half. *)
Definition sin_cos_at (F : nat) (p : nat -> R) (k : nat) : R :=
  if (k <? F / 2)%nat then sin (p (2 * k)%nat)
  else cos (p (2 * (k - F / 2) + 1)%nat).

(** The feature vector both encoders build from the three coordinates of a
    voxel or point, at channel [c]: X block, then Y block, then Z block. *)
Definition features (self : config) (cx cy cz : R) (c : nat) : R :=
  let F := num_pos_feats self in
  let band v := fun j => v / data (dim_t self) [j] in
  if (c <? F)%nat then sin_cos_at F (band cx) c
  else if (c <? F + F)%nat then sin_cos_at F (band cy) (c - F)
  else sin_cos_at F (band cz) (c - F - F).

(** The coordinate the sparse encoder feeds to the frequency bands. *)
Definition sparse_coordinate (self : config) (c : R) : R :=
  if normalize self then c / (c + eps) * scale self else c.

(** The occupancy indicator of a mask, as the float tensor that is summed. *)
Definition occupancy (mask : tensor bool) : tensor R :=
  tmap float_of_bool (tmap negb mask).

(** Number of occupied voxels among positions [0 .. i] of a line. *)
Definition rank (occ : nat -> R) (i : nat) : R := sum_upto occ i.

(** The coordinate the dense encoder feeds to the frequency bands, for
    position [i] of a line of extent [n] with occupancy [occ]. *)
Definition dense_coordinate (self : config) (occ : nat -> R) (n i : nat) : R :=
  if normalize self then rank occ i / (rank occ (n - 1) + eps) * scale self
  else rank occ i.

(** The mask [forward] works with: the one given, or all-false of [x]'s extents. *)
Definition effective_mask {A : Type} (x : tensor A) (mask : option (tensor bool))
  : tensor bool :=
  match mask with
  | Some m => m
  | None => zeros [nth 0 (shape x) 0; nth 2 (shape x) 0; nth 3 (shape x) 0;
                   nth 4 (shape x) 0]%nat
  end.

(** [mask] is absent or has the shape of [x]'s batch and spatial axes. *)
Definition mask_fits (mask : option (tensor bool)) (B X Y Z : nat) : Prop :=
  match mask with
  | Some m => shape m = [B; X; Y; Z]
  | None => True
  end.

(** Number of unmasked voxels among positions [0 .. i] of the line [line]
    of a mask. *)
Definition occupied_upto (m : tensor bool) (line : nat -> list nat) (i : nat) : nat :=
  length (filter (fun u => negb (data m (line u))) (seq 0 (S i))).

(** A 1x2x1x1 mask whose first voxel along X is padding. *)
Definition first_voxel_masked : tensor bool :=
  mkTensor [1; 2; 1; 1]%nat (fun idx => (nth 1 idx 0 =? 0)%nat).

(** A 1x1x1x1 mask whose only voxel is padding. *)
Definition all_masked : tensor bool :=
  mkTensor [1; 1; 1; 1]%nat (fun _ => true).

(** ** The statements of the specification that the code does not meet *)

(** Every entry of the frequency table is positive, whatever the configuration. *)
Definition dim_t_positive : Prop :=
  forall (self : config) (i : nat),
    (i < num_pos_feats self)%nat -> 0 < data (dim_t self) [i].

(** The frequency table is non-decreasing, whatever the configuration. *)
Definition dim_t_nondecreasing : Prop :=
  forall (self : config) (i j : nat),
    (i <= j)%nat -> (j < num_pos_feats self)%nat ->
    data (dim_t self) [i] <= data (dim_t self) [j].

(** With [normalize] set (and a positive [scale]) the dense encoder maps
    every rank of every axis into the interval (0, scale], whatever the mask. *)
Definition dense_normalized_ranks_positive : Prop :=
  forall (self : config) (mask : tensor bool) (B X Y Z : nat),
    shape mask = [B; X; Y; Z] -> normalize self = true -> 0 < scale self ->
    forall ex ey ez,
      PositionEmbeddingSine.embed self (zeros [B; 1%nat; X; Y; Z]) (Some mask) =
        inr (ex, ey, ez) ->
      forall b i j k, (b < B)%nat -> (i < X)%nat -> (j < Y)%nat -> (k < Z)%nat ->
        0 < data ex [b; i; j; k] <= scale self /\
        0 < data ey [b; i; j; k] <= scale self /\
        0 < data ez [b; i; j; k] <= scale self.

(** * Proofs *)

(** ** Index arithmetic and the sin/cos stacking *)

Section IndexLists.
Variables (a b r : list nat) (v k : nat).
Hypothesis Hlen : length b = length a.

Lemma nth_at_len : nth (length a) (b ++ k :: r) 0%nat = k.
Proof. rewrite <- Hlen. apply nth_middle. Qed.

Lemma set_nth_at_len : set_nth (length a) v (b ++ k :: r) = b ++ v :: r.
Proof.
  rewrite <- Hlen. clear Hlen. induction b as [|i b' IH]; simpl; [reflexivity|].
  now rewrite IH.
Qed.

Lemma insert_at_len : insert_at (length a) v (b ++ r) = b ++ v :: r.
Proof.
  rewrite <- Hlen. clear Hlen. induction b as [|i b' IH]; simpl.
  - destruct r; reflexivity.
  - now rewrite IH.
Qed.

Lemma remove_at_len : remove_at (length a) (b ++ k :: r) = b ++ r.
Proof.
  rewrite <- Hlen. clear Hlen. induction b as [|i b' IH]; simpl; [reflexivity|].
  now rewrite IH.
Qed.

Lemma firstn_at_len : firstn (length a) (b ++ r) = b.
Proof.
  rewrite <- Hlen. clear Hlen. induction b as [|i b' IH]; simpl.
  - reflexivity.
  - now rewrite IH.
Qed.

Lemma skipn_at_len : skipn (length a) (b ++ r) = r.
Proof.
  rewrite <- Hlen. clear Hlen. induction b as [|i b' IH]; simpl; [reflexivity|].
  exact IH.
Qed.
End IndexLists.

Lemma shape_eqb_refl s : shape_eqb s s = true.
Proof. unfold shape_eqb. destruct (list_eq_dec Nat.eq_dec s s); congruence. Qed.

Lemma shape_eqb_neq s1 s2 : s1 <> s2 -> shape_eqb s1 s2 = false.
Proof. unfold shape_eqb. destruct (list_eq_dec Nat.eq_dec s1 s2); congruence. Qed.

Lemma slice_len_even F : slice_len F (norm_start F 0) 2 = ((F + 1) / 2)%nat.
Proof. unfold slice_len. change (norm_start F 0) with 0%nat. f_equal. lia. Qed.

Lemma norm_start_1 F : (0 < F)%nat -> norm_start F 1 = 1%nat.
Proof. intros H. change (norm_start F 1) with (Nat.min 1 F). lia. Qed.

Lemma slice_len_odd F : slice_len F (norm_start F 1) 2 = (F / 2)%nat.
Proof.
  destruct F as [|F]; [reflexivity|].
  rewrite norm_start_1 by lia. unfold slice_len. f_equal. lia.
Qed.

Lemma even_halves F : Nat.even F = true -> ((F + 1) / 2 = F / 2)%nat.
Proof.
  intros H. apply Nat.even_spec in H. destruct H as [k ->].
  rewrite (Nat.mul_comm 2 k), Nat.div_mul by lia.
  replace (k * 2 + 1)%nat with (1 + k * 2)%nat by lia.
  rewrite Nat.div_add by lia. reflexivity.
Qed.

Lemma odd_halves F : Nat.odd F = true -> ((F + 1) / 2 = S (F / 2))%nat.
Proof.
  intros H. apply Nat.odd_spec in H. destruct H as [k ->].
  replace (2 * k + 1 + 1)%nat with ((k + 1) * 2)%nat by lia.
  rewrite Nat.div_mul by lia.
  replace (2 * k + 1)%nat with (1 + k * 2)%nat by lia.
  rewrite Nat.div_add by lia. simpl. lia.
Qed.

Lemma even_double_half F : Nat.even F = true -> (2 * (F / 2) = F)%nat.
Proof.
  intros H. apply Nat.even_spec in H. destruct H as [k ->].
  rewrite (Nat.mul_comm 2 k), Nat.div_mul by lia. lia.
Qed.


Lemma sin_cos_shapes (pre : list nat) (F : nat) (p : tensor R) :
  shape p = pre ++ [F] ->
  shape (tmap sin (slice_from (length pre) 0 2 p)) = pre ++ [((F + 1) / 2)%nat] /\
  shape (tmap cos (slice_from (length pre) 1 2 p)) = pre ++ [(F / 2)%nat].
Proof.
  intros Hs. unfold tmap, slice_from. cbn [shape]. rewrite Hs.
  rewrite (nth_at_len pre pre [] F eq_refl).
  rewrite !(set_nth_at_len pre pre [] _ F eq_refl).
  now rewrite slice_len_even, slice_len_odd.
Qed.

Lemma sin_cos_even (pre : list nat) (F : nat) (p : tensor R) :
  shape p = pre ++ [F] -> Nat.even F = true ->
  exists t, sin_cos (length pre) p = inr t /\ shape t = pre ++ [F] /\
    forall ipre k, length ipre = length pre -> (k < F)%nat ->
      data t (ipre ++ [k]) = sin_cos_at F (fun j => data p (ipre ++ [j])) k.
Proof.
  intros Hs Hev.
  destruct (sin_cos_shapes pre F p Hs) as [Ha Hb].
  rewrite even_halves in Ha by assumption.
  unfold sin_cos, stack2. rewrite Ha, Hb, shape_eqb_refl.
  unfold dim. rewrite Ha.
  replace (length pre <=? length (pre ++ [(F / 2)%nat]))%nat with true
    by (symmetry; apply Nat.leb_le; rewrite length_app; lia).
  cbn [bind ret]. unfold flatten, dim. cbn [shape].
  replace (length pre <? length (insert_at (length pre) 2 (pre ++ [(F / 2)%nat])))%nat with true
    by (symmetry; apply Nat.ltb_lt; rewrite (insert_at_len pre pre _ 2 eq_refl), length_app; simpl; lia).
  eexists. split; [reflexivity|]. cbn [shape data].
  rewrite (insert_at_len pre pre _ 2 eq_refl).
  rewrite (firstn_at_len pre pre _ eq_refl), (skipn_at_len pre pre _ eq_refl).
  split.
  - f_equal. cbn [prod_list fold_right]. rewrite Nat.mul_1_r, even_double_half; auto.
  - intros ipre k Hl Hk.
    rewrite (nth_at_len pre ipre [] k Hl), (firstn_at_len pre ipre _ Hl).
    cbn [unravel prod_list fold_right].
    rewrite Nat.mul_1_r, Nat.div_1_r.
    rewrite (nth_at_len pre ipre [_] _ Hl), (remove_at_len pre ipre [_] _ Hl).
    unfold slice_from, tmap. cbn [data]. rewrite Hs.
    rewrite (nth_at_len pre pre [] F eq_refl).
    rewrite !(nth_at_len pre ipre [] _ Hl), !(set_nth_at_len pre ipre [] _ _ Hl).
    change (norm_start F 0) with 0%nat. rewrite norm_start_1 by lia.
    unfold sin_cos_at.
    assert (HF : (2 * (F / 2) = F)%nat) by now apply even_double_half.
    assert (Hpos : (0 < F / 2)%nat) by lia.
    destruct (Nat.ltb_spec k (F / 2)) as [Hlt | Hge].
    + rewrite Nat.div_small, Nat.mod_small by assumption. reflexivity.
    + assert (Hq : (k / (F / 2) = 1)%nat).
      { symmetry. apply (Nat.div_unique k (F / 2) 1 (k - F / 2)); lia. }
      assert (Hr : (k mod (F / 2) = k - F / 2)%nat).
      { symmetry. apply (Nat.mod_unique k (F / 2) 1 (k - F / 2)); lia. }
      rewrite Hq, Hr. do 2 f_equal. f_equal. f_equal. lia.
Qed.

Lemma sin_cos_odd (pre : list nat) (F : nat) (p : tensor R) :
  shape p = pre ++ [F] -> Nat.odd F = true ->
  sin_cos (length pre) p = inl (RuntimeError "stack expects each tensor to be equal size").
Proof.
  intros Hs Hodd.
  destruct (sin_cos_shapes pre F p Hs) as [Ha Hb].
  unfold sin_cos, stack2. rewrite Ha, Hb, shape_eqb_neq; [reflexivity|].
  intros E. apply app_inv_head in E.
  assert (E' : ((F + 1) / 2 = F / 2)%nat) by congruence.
  rewrite odd_halves in E' by assumption. lia.
Qed.

(** ** The frequency table and broadcasting *)

Lemma INR_half_bounds (i : nat) : 2 * INR (i / 2) <= INR i < 2 * INR (i / 2) + 2.
Proof.
  pose proof (Nat.div_mod_eq i 2) as E.
  pose proof (Nat.mod_upper_bound i 2 ltac:(lia)) as Hr.
  assert (Hi : INR i = 2 * INR (i / 2) + INR (i mod 2)).
  { rewrite E at 1. rewrite plus_INR, mult_INR. simpl. lra. }
  assert (H0 : 0 <= INR (i mod 2)) by apply pos_INR.
  assert (H1 : INR (i mod 2) <= 1).
  { change 1 with (INR 1). apply le_INR. lia. }
  lra.
Qed.

Lemma floor_div_INR (i : nat) : floor_div (INR i) 2 = INR (i / 2).
Proof.
  unfold floor_div. rewrite (INR_IZR_INZ (i / 2)). f_equal. symmetry.
  apply Int_part_spec. rewrite <- INR_IZR_INZ.
  pose proof (INR_half_bounds i). lra.
Qed.

Lemma dim_t_shape self : shape (dim_t self) = [num_pos_feats self].
Proof. reflexivity. Qed.

Lemma dim_t_data self (i : nat) :
  data (dim_t self) [i] =
  pow (temperature self) (2 * INR (i / 2) / INR (num_pos_feats self)).
Proof. unfold dim_t, tmap, arange. cbn [data nth]. now rewrite floor_div_INR. Qed.

Lemma bcast_dim_refl n : bcast_dim n n = Some n.
Proof. unfold bcast_dim. now rewrite Nat.eqb_refl. Qed.

Lemma bcast_dim_1_l n : bcast_dim 1 n = Some n.
Proof.
  unfold bcast_dim. destruct (Nat.eqb_spec 1 n) as [<- | _]; reflexivity.
Qed.

Lemma bcast_dim_1_r n : bcast_dim n 1 = Some n.
Proof.
  unfold bcast_dim. destruct (Nat.eqb_spec n 1) as [-> | _]; reflexivity.
Qed.

Lemma bsel (n i : nat) : (i < n)%nat -> (if (n =? 1)%nat then 0%nat else i) = i.
Proof. intros H. destruct (Nat.eqb_spec n 1); lia. Qed.

Lemma sin_cos_at_ext F (p q : nat -> R) k :
  Nat.even F = true -> (k < F)%nat ->
  (forall j, (j < F)%nat -> p j = q j) -> sin_cos_at F p k = sin_cos_at F q k.
Proof.
  intros Hev Hk Hpq. pose proof (even_double_half F Hev) as HF.
  unfold sin_cos_at. destruct (Nat.ltb_spec k (F / 2)); rewrite Hpq; auto; lia.
Qed.


Lemma norm_start_last n : norm_start n (-1) = (n - 1)%nat.
Proof. unfold norm_start. cbn [Z.ltb Z.compare]. lia. Qed.

Lemma slice_len_last n : slice_len n (n - 1) 1 = Nat.min 1 n.
Proof.
  unfold slice_len. cbn [Nat.sub]. rewrite Nat.add_0_r, Nat.div_1_r. lia.
Qed.

Lemma bcast_dim_last n : bcast_dim n (Nat.min 1 n) = Some n.
Proof.
  destruct n as [|n]; [reflexivity|].
  replace (Nat.min 1 (S n)) with 1%nat by lia. apply bcast_dim_1_r.
Qed.

Lemma bsel_last (n i : nat) :
  (i < n)%nat -> (if (Nat.min 1 n =? 1)%nat then 0%nat else i) = 0%nat.
Proof. intros H. destruct (Nat.eqb_spec (Nat.min 1 n) 1); lia. Qed.

(** ** The sparse encoder *)

Module SparseFacts.
Import PositionEmbeddingSineSparse.

Lemma sparse_select_coords (coords : tensor R) N (a : nat) :
  shape coords = [N; 3%nat] -> (a < 3)%nat ->
  select 1 a coords =
  inr (mkTensor [N] (fun idx => data coords (insert_at 1 a idx))).
Proof.
  intros Hs Ha. unfold select. rewrite Hs. cbn [nth remove_at].
  apply Nat.ltb_lt in Ha. now rewrite Ha.
Qed.

Lemma sparse_normalize_axis_spec self N (e : tensor R) :
  shape e = [N] ->
  exists t, normalize_axis self e = inr t /\ shape t = [N] /\
    forall n, (n < N)%nat ->
      data t [n] = data e [n] / (data e [n] + eps) * scale self.
Proof.
  intros Hs. unfold normalize_axis, broadcast2, tmap. cbn [shape]. rewrite Hs.
  unfold broadcast_shapes. cbn [rev app bcast_rev]. rewrite bcast_dim_refl.
  cbn [option_map rev app bind ret].
  eexists. split; [reflexivity|]. split; [reflexivity|].
  intros n Hn. cbn [data bidx length Nat.sub skipn bidx_aligned].
  now rewrite (bsel N n Hn).
Qed.

Lemma sparse_embed_spec self N (coords : tensor R) :
  shape coords = [N; 3%nat] ->
  exists ex ey ez, embed self coords = inr (ex, ey, ez) /\
    shape ex = [N] /\ shape ey = [N] /\ shape ez = [N] /\
    forall n, (n < N)%nat ->
      data ex [n] = sparse_coordinate self (data coords [n; 0%nat]) /\
      data ey [n] = sparse_coordinate self (data coords [n; 1%nat]) /\
      data ez [n] = sparse_coordinate self (data coords [n; 2%nat]).
Proof.
  intros Hs. unfold embed, sparse_coordinate.
  rewrite !(sparse_select_coords coords N) by (assumption || lia).
  cbn [bind]. destruct (normalize self).
  - destruct (sparse_normalize_axis_spec self N
                (mkTensor [N] (fun idx => data coords (insert_at 1 0 idx))) eq_refl)
      as (tx & -> & Hsx & Hdx).
    destruct (sparse_normalize_axis_spec self N
                (mkTensor [N] (fun idx => data coords (insert_at 1 1 idx))) eq_refl)
      as (ty & -> & Hsy & Hdy).
    destruct (sparse_normalize_axis_spec self N
                (mkTensor [N] (fun idx => data coords (insert_at 1 2 idx))) eq_refl)
      as (tz & -> & Hsz & Hdz).
    cbn [bind ret]. exists tx, ty, tz. repeat split; auto.
  - cbn [ret]. do 3 eexists. repeat split; reflexivity.
Qed.

(** Line 113: [e[:, None] / dim_t]. *)
Lemma sparse_over_dim_t self N (e : tensor R) :
  shape e = [N] ->
  exists p, broadcast2 Rdiv (unsqueeze 1 e) (dim_t self) = inr p /\
    shape p = [N; num_pos_feats self] /\
    forall n q, (n < N)%nat -> (q < num_pos_feats self)%nat ->
      data p [n; q] = data e [n] / data (dim_t self) [q].
Proof.
  intros Hs. unfold broadcast2, unsqueeze. cbn [shape]. rewrite Hs, dim_t_shape.
  unfold broadcast_shapes. cbn [insert_at rev app bcast_rev].
  rewrite bcast_dim_1_l. cbn [option_map rev app ret].
  eexists. split; [reflexivity|]. split; [reflexivity|].
  intros n q Hn Hq. cbn [data bidx length Nat.sub skipn bidx_aligned remove_at].
  now rewrite (bsel N n Hn), (bsel _ q Hq).
Qed.

(** Lines 113 and 117-121 for one axis. *)
Lemma sparse_axis_even self N (e : tensor R) :
  shape e = [N] -> Nat.even (num_pos_feats self) = true ->
  exists p t, broadcast2 Rdiv (unsqueeze 1 e) (dim_t self) = inr p /\
    sin_cos 1 p = inr t /\
    shape t = [N; num_pos_feats self] /\
    forall n k, (n < N)%nat -> (k < num_pos_feats self)%nat ->
      data t [n; k] =
      sin_cos_at (num_pos_feats self) (fun j => data e [n] / data (dim_t self) [j]) k.
Proof.
  intros Hs Hev.
  destruct (sparse_over_dim_t self N e Hs) as (p & Ep & Hsp & Hdp).
  destruct (sin_cos_even [N] (num_pos_feats self) p Hsp Hev) as (t & Et & Hst & Hdt).
  exists p, t. split; [exact Ep|]. split; [exact Et|]. split; [exact Hst|].
  intros n k Hn Hk. pose proof (Hdt [n] k eq_refl Hk) as E.
  cbn [app] in E. rewrite E.
  apply sin_cos_at_ext; auto.
Qed.

Lemma sparse_cat3 N F (a b c : tensor R) :
  shape a = [N; F] -> shape b = [N; F] -> shape c = [N; F] ->
  exists t, cat3 a b c 1 = inr t /\ shape t = [N; (3 * F)%nat] /\
    forall n k,
      data t [n; k] =
      if (k <? F)%nat then data a [n; k]
      else if (k <? F + F)%nat then data b [n; (k - F)%nat]
      else data c [n; (k - F - F)%nat].
Proof.
  intros Ha Hb Hc. unfold cat3, dim. rewrite Ha, Hb, Hc.
  cbn [length Nat.ltb Nat.leb remove_at Nat.eqb andb nth set_nth].
  rewrite shape_eqb_refl. cbn [andb].
  eexists. split; [reflexivity|]. split.
  - cbn [shape]. do 2 f_equal. lia.
  - intros n k. reflexivity.
Qed.

Lemma sparse_forward_even self N (coords : tensor R) :
  shape coords = [N; 3%nat] -> Nat.even (num_pos_feats self) = true ->
  exists pos, forward self coords = inr pos /\
    shape pos = [N; (3 * num_pos_feats self)%nat] /\
    forall n c, (n < N)%nat -> (c < 3 * num_pos_feats self)%nat ->
      data pos [n; c] =
      features self (sparse_coordinate self (data coords [n; 0%nat]))
        (sparse_coordinate self (data coords [n; 1%nat]))
        (sparse_coordinate self (data coords [n; 2%nat])) c.
Proof.
  intros Hs Hev. unfold forward.
  destruct (sparse_embed_spec self N coords Hs)
    as (ex & ey & ez & -> & Hsx & Hsy & Hsz & Hd).
  cbn [bind].
  destruct (sparse_axis_even self N ex Hsx Hev) as (qx & px & -> & Ex' & Hpx & Hdx).
  destruct (sparse_axis_even self N ey Hsy Hev) as (qy & py & -> & Ey' & Hpy & Hdy).
  destruct (sparse_axis_even self N ez Hsz Hev) as (qz & pz & -> & Ez' & Hpz & Hdz).
  cbn [bind]. rewrite Ex', Ey', Ez'. cbn [bind].
  destruct (sparse_cat3 N (num_pos_feats self) px py pz Hpx Hpy Hpz)
    as (pos & -> & Hshape & Hdata).
  exists pos. split; [reflexivity|]. split; [exact Hshape|].
  intros n c Hn Hc. rewrite Hdata. unfold features.
  destruct (Hd n Hn) as (Ex & Ey & Ez).
  destruct (Nat.ltb_spec c (num_pos_feats self)).
  - rewrite Hdx, Ex by assumption. reflexivity.
  - destruct (Nat.ltb_spec c (num_pos_feats self + num_pos_feats self)).
    + rewrite Hdy, Ey by (assumption || lia). reflexivity.
    + rewrite Hdz, Ez by (assumption || lia). reflexivity.
Qed.

Lemma sparse_forward_odd self N (coords : tensor R) :
  shape coords = [N; 3%nat] -> Nat.odd (num_pos_feats self) = true ->
  forward self coords =
  inl (RuntimeError "stack expects each tensor to be equal size").
Proof.
  intros Hs Hodd. unfold forward.
  destruct (sparse_embed_spec self N coords Hs)
    as (ex & ey & ez & -> & Hsx & Hsy & Hsz & Hd).
  cbn [bind].
  destruct (sparse_over_dim_t self N ex Hsx) as (qx & -> & Hqx & _).
  destruct (sparse_over_dim_t self N ey Hsy) as (qy & -> & _ & _).
  destruct (sparse_over_dim_t self N ez Hsz) as (qz & -> & _ & _).
  cbn [bind].
  pose proof (sin_cos_odd [N] (num_pos_feats self) qx Hqx Hodd) as E.
  cbn [length] in E. now rewrite E.
Qed.
End SparseFacts.

(** ** The dense encoder *)

Module DenseFacts.
Import PositionEmbeddingSine.

Section Axes.
Variables (self : config) (B X Y Z : nat) (e : tensor R).
Hypothesis Hs : shape e = [B; X; Y; Z].

Ltac normalize_axis_tac :=
  unfold normalize_axis, broadcast2, tmap, slice_from; cbn [shape]; rewrite Hs;
  cbn [nth set_nth]; rewrite norm_start_last, slice_len_last;
  unfold broadcast_shapes; cbn [rev app bcast_rev];
  rewrite ?bcast_dim_refl, ?bcast_dim_last; cbn [option_map rev app bind ret];
  eexists; split; [reflexivity|]; split; [reflexivity|];
  intros b i j k Hb Hi Hj Hk;
  cbn [data bidx length Nat.sub skipn bidx_aligned nth set_nth];
  rewrite ?(bsel B b Hb), ?(bsel X i Hi), ?(bsel Y j Hj), ?(bsel Z k Hk),
    ?(bsel_last X i Hi), ?(bsel_last Y j Hj), ?(bsel_last Z k Hk);
  rewrite Nat.mul_0_r, Nat.add_0_r; reflexivity.

Lemma dense_normalize_axis_x :
  exists t, normalize_axis self 1 e = inr t /\ shape t = [B; X; Y; Z] /\
    forall b i j k, (b < B)%nat -> (i < X)%nat -> (j < Y)%nat -> (k < Z)%nat ->
      data t [b; i; j; k] =
      data e [b; i; j; k] / (data e [b; (X - 1)%nat; j; k] + eps) * scale self.
Proof. normalize_axis_tac. Qed.

Lemma dense_normalize_axis_y :
  exists t, normalize_axis self 2 e = inr t /\ shape t = [B; X; Y; Z] /\
    forall b i j k, (b < B)%nat -> (i < X)%nat -> (j < Y)%nat -> (k < Z)%nat ->
      data t [b; i; j; k] =
      data e [b; i; j; k] / (data e [b; i; (Y - 1)%nat; k] + eps) * scale self.
Proof. normalize_axis_tac. Qed.

Lemma dense_normalize_axis_z :
  exists t, normalize_axis self 3 e = inr t /\ shape t = [B; X; Y; Z] /\
    forall b i j k, (b < B)%nat -> (i < X)%nat -> (j < Y)%nat -> (k < Z)%nat ->
      data t [b; i; j; k] =
      data e [b; i; j; k] / (data e [b; i; j; (Z - 1)%nat] + eps) * scale self.
Proof. normalize_axis_tac. Qed.
End Axes.

Lemma cumsum_occupancy (mask : tensor bool) B X Y Z (d : nat) :
  shape mask = [B; X; Y; Z] -> (d < 4)%nat ->
  cumsum d (occupancy mask) =
  inr (mkTensor [B; X; Y; Z]
         (fun idx => sum_upto (fun u => data (occupancy mask) (set_nth d u idx))
                       (nth d idx 0%nat))).
Proof.
  intros Hs Hd. unfold cumsum, dim, occupancy, tmap. cbn [shape]. rewrite Hs.
  cbn [length]. apply Nat.ltb_lt in Hd. now rewrite Hd.
Qed.

Lemma dense_embed_mask {A : Type} self (x : tensor A) (mask : tensor bool) B X Y Z :
  shape mask = [B; X; Y; Z] ->
  exists ex ey ez, embed self x (Some mask) = inr (ex, ey, ez) /\
    shape ex = [B; X; Y; Z] /\ shape ey = [B; X; Y; Z] /\ shape ez = [B; X; Y; Z] /\
    forall b i j k, (b < B)%nat -> (i < X)%nat -> (j < Y)%nat -> (k < Z)%nat ->
      data ex [b; i; j; k] =
        dense_coordinate self (fun u => data (occupancy mask) [b; u; j; k]) X i /\
      data ey [b; i; j; k] =
        dense_coordinate self (fun u => data (occupancy mask) [b; i; u; k]) Y j /\
      data ez [b; i; j; k] =
        dense_coordinate self (fun u => data (occupancy mask) [b; i; j; u]) Z k.
Proof.
  intros Hs. unfold embed. cbn [bind ret].
  fold (occupancy mask).
  rewrite !(cumsum_occupancy mask B X Y Z) by (assumption || lia).
  cbn [bind]. unfold dense_coordinate, rank. destruct (normalize self).
  - destruct (dense_normalize_axis_x self B X Y Z
                (mkTensor [B; X; Y; Z]
                   (fun idx => sum_upto (fun u => data (occupancy mask) (set_nth 1 u idx))
                                 (nth 1 idx 0%nat))) eq_refl)
      as (tx & -> & Hsx & Hdx).
    destruct (dense_normalize_axis_y self B X Y Z
                (mkTensor [B; X; Y; Z]
                   (fun idx => sum_upto (fun u => data (occupancy mask) (set_nth 2 u idx))
                                 (nth 2 idx 0%nat))) eq_refl)
      as (ty & -> & Hsy & Hdy).
    destruct (dense_normalize_axis_z self B X Y Z
                (mkTensor [B; X; Y; Z]
                   (fun idx => sum_upto (fun u => data (occupancy mask) (set_nth 3 u idx))
                                 (nth 3 idx 0%nat))) eq_refl)
      as (tz & -> & Hsz & Hdz).
    cbn [bind ret]. exists tx, ty, tz. repeat split; auto.
  - cbn [ret]. do 3 eexists. repeat split; reflexivity.
Qed.

Lemma dense_embed_no_mask {A : Type} self (x : tensor A) B C X Y Z :
  shape x = [B; C; X; Y; Z] ->
  embed self x None = embed self x (Some (zeros [B; X; Y; Z])).
Proof.
  intros Hx. unfold embed, size. rewrite Hx. reflexivity.
Qed.

Lemma dense_embed_spec {A : Type} self (x : tensor A) (mask : option (tensor bool))
  B C X Y Z :
  shape x = [B; C; X; Y; Z] -> mask_fits mask B X Y Z ->
  let occ := occupancy (effective_mask x mask) in
  exists ex ey ez, embed self x mask = inr (ex, ey, ez) /\
    shape ex = [B; X; Y; Z] /\ shape ey = [B; X; Y; Z] /\ shape ez = [B; X; Y; Z] /\
    forall b i j k, (b < B)%nat -> (i < X)%nat -> (j < Y)%nat -> (k < Z)%nat ->
      data ex [b; i; j; k] = dense_coordinate self (fun u => data occ [b; u; j; k]) X i /\
      data ey [b; i; j; k] = dense_coordinate self (fun u => data occ [b; i; u; k]) Y j /\
      data ez [b; i; j; k] = dense_coordinate self (fun u => data occ [b; i; j; u]) Z k.
Proof.
  intros Hx Hm. destruct mask as [m|]; cbn [effective_mask mask_fits] in *.
  - now apply dense_embed_mask.
  - rewrite (dense_embed_no_mask self x B C X Y Z Hx), Hx. cbn [nth].
    now apply dense_embed_mask.
Qed.

(** Lines 53-55: [e[:, :, :, :, None] / dim_t]. *)
Lemma dense_over_dim_t self B X Y Z (e : tensor R) :
  shape e = [B; X; Y; Z] ->
  exists p, broadcast2 Rdiv (unsqueeze 4 e) (dim_t self) = inr p /\
    shape p = [B; X; Y; Z; num_pos_feats self] /\
    forall b i j k q, (b < B)%nat -> (i < X)%nat -> (j < Y)%nat -> (k < Z)%nat ->
      (q < num_pos_feats self)%nat ->
      data p [b; i; j; k; q] = data e [b; i; j; k] / data (dim_t self) [q].
Proof.
  intros Hs. unfold broadcast2, unsqueeze. cbn [shape]. rewrite Hs, dim_t_shape.
  unfold broadcast_shapes. cbn [insert_at rev app bcast_rev].
  rewrite bcast_dim_1_l. cbn [option_map rev app ret].
  eexists. split; [reflexivity|]. split; [reflexivity|].
  intros b i j k q Hb Hi Hj Hk Hq.
  cbn [data bidx length Nat.sub skipn bidx_aligned remove_at].
  now rewrite (bsel B b Hb), (bsel X i Hi), (bsel Y j Hj), (bsel Z k Hk), (bsel _ q Hq).
Qed.

(** Lines 53-55 and 57-65 for one axis. *)
Lemma dense_axis_even self B X Y Z (e : tensor R) :
  shape e = [B; X; Y; Z] -> Nat.even (num_pos_feats self) = true ->
  exists p t, broadcast2 Rdiv (unsqueeze 4 e) (dim_t self) = inr p /\
    sin_cos 4 p = inr t /\
    shape t = [B; X; Y; Z; num_pos_feats self] /\
    forall b i j k f, (b < B)%nat -> (i < X)%nat -> (j < Y)%nat -> (k < Z)%nat ->
      (f < num_pos_feats self)%nat ->
      data t [b; i; j; k; f] =
      sin_cos_at (num_pos_feats self)
        (fun q => data e [b; i; j; k] / data (dim_t self) [q]) f.
Proof.
  intros Hs Hev.
  destruct (dense_over_dim_t self B X Y Z e Hs) as (p & Ep & Hsp & Hdp).
  destruct (sin_cos_even [B; X; Y; Z] (num_pos_feats self) p Hsp Hev)
    as (t & Et & Hst & Hdt).
  exists p, t. split; [exact Ep|]. split; [exact Et|]. split; [exact Hst|].
  intros b i j k f Hb Hi Hj Hk Hf.
  pose proof (Hdt [b; i; j; k] f eq_refl Hf) as E.
  cbn [app] in E. rewrite E.
  apply sin_cos_at_ext; auto.
Qed.

Lemma dense_cat3 B X Y Z F (a b c : tensor R) :
  shape a = [B; X; Y; Z; F] -> shape b = [B; X; Y; Z; F] -> shape c = [B; X; Y; Z; F] ->
  exists t, cat3 a b c 4 = inr t /\ shape t = [B; X; Y; Z; (3 * F)%nat] /\
    forall n i j k f,
      data t [n; i; j; k; f] =
      if (f <? F)%nat then data a [n; i; j; k; f]
      else if (f <? F + F)%nat then data b [n; i; j; k; (f - F)%nat]
      else data c [n; i; j; k; (f - F - F)%nat].
Proof.
  intros Ha Hb Hc. unfold cat3, dim. rewrite Ha, Hb, Hc.
  cbn [length Nat.ltb Nat.leb remove_at Nat.eqb andb nth set_nth].
  rewrite shape_eqb_refl. cbn [andb].
  eexists. split; [reflexivity|]. split.
  - cbn [shape]. do 5 f_equal. lia.
  - intros n i j k f. reflexivity.
Qed.

Lemma dense_permute B X Y Z F (t : tensor R) :
  shape t = [B; X; Y; Z; F] ->
  exists pos, permute [0; 4; 1; 2; 3]%nat t = inr pos /\
    shape pos = [B; F; X; Y; Z] /\
    forall n f i j k, data pos [n; f; i; j; k] = data t [n; i; j; k; f].
Proof.
  intros Hs. unfold permute, dim. rewrite Hs.
  eexists. split; [reflexivity|]. split; reflexivity.
Qed.

Lemma dense_forward_even {A : Type} self (x : tensor A) (mask : option (tensor bool))
  B C X Y Z :
  shape x = [B; C; X; Y; Z] -> mask_fits mask B X Y Z ->
  Nat.even (num_pos_feats self) = true ->
  let occ := occupancy (effective_mask x mask) in
  exists pos, forward self x mask = inr pos /\
    shape pos = [B; (3 * num_pos_feats self)%nat; X; Y; Z] /\
    forall b c i j k, (b < B)%nat -> (c < 3 * num_pos_feats self)%nat ->
      (i < X)%nat -> (j < Y)%nat -> (k < Z)%nat ->
      data pos [b; c; i; j; k] =
      features self
        (dense_coordinate self (fun u => data occ [b; u; j; k]) X i)
        (dense_coordinate self (fun u => data occ [b; i; u; k]) Y j)
        (dense_coordinate self (fun u => data occ [b; i; j; u]) Z k) c.
Proof.
  intros Hx Hm Hev occ. unfold forward.
  destruct (dense_embed_spec self x mask B C X Y Z Hx Hm)
    as (ex & ey & ez & -> & Hsx & Hsy & Hsz & Hd).
  cbn [bind].
  destruct (dense_axis_even self B X Y Z ex Hsx Hev) as (qx & px & -> & Ex' & Hpx & Hdx).
  destruct (dense_axis_even self B X Y Z ey Hsy Hev) as (qy & py & -> & Ey' & Hpy & Hdy).
  destruct (dense_axis_even self B X Y Z ez Hsz Hev) as (qz & pz & -> & Ez' & Hpz & Hdz).
  cbn [bind]. rewrite Ex', Ey', Ez'. cbn [bind].
  destruct (dense_cat3 B X Y Z (num_pos_feats self) px py pz Hpx Hpy Hpz)
    as (t & -> & Hst & Hdt).
  cbn [bind].
  destruct (dense_permute B X Y Z (3 * num_pos_feats self) t Hst)
    as (pos & -> & Hshape & Hdata).
  exists pos. split; [reflexivity|]. split; [exact Hshape|].
  intros b c i j k Hb Hc Hi Hj Hk. rewrite Hdata, Hdt. unfold features.
  destruct (Hd b i j k Hb Hi Hj Hk) as (Ex & Ey & Ez). fold occ in Ex, Ey, Ez.
  destruct (Nat.ltb_spec c (num_pos_feats self)).
  - rewrite Hdx, Ex by assumption. reflexivity.
  - destruct (Nat.ltb_spec c (num_pos_feats self + num_pos_feats self)).
    + rewrite Hdy, Ey by (assumption || lia). reflexivity.
    + rewrite Hdz, Ez by (assumption || lia). reflexivity.
Qed.

Lemma dense_forward_odd {A : Type} self (x : tensor A) (mask : option (tensor bool))
  B C X Y Z :
  shape x = [B; C; X; Y; Z] -> mask_fits mask B X Y Z ->
  Nat.odd (num_pos_feats self) = true ->
  forward self x mask = inl (RuntimeError "stack expects each tensor to be equal size").
Proof.
  intros Hx Hm Hodd. unfold forward.
  destruct (dense_embed_spec self x mask B C X Y Z Hx Hm)
    as (ex & ey & ez & -> & Hsx & Hsy & Hsz & Hd).
  cbn [bind].
  destruct (dense_over_dim_t self B X Y Z ex Hsx) as (qx & -> & Hqx & _).
  destruct (dense_over_dim_t self B X Y Z ey Hsy) as (qy & -> & _ & _).
  destruct (dense_over_dim_t self B X Y Z ez Hsz) as (qz & -> & _ & _).
  cbn [bind].
  pose proof (sin_cos_odd [B; X; Y; Z] (num_pos_feats self) qx Hqx Hodd) as E.
  cbn [length] in E. now rewrite E.
Qed.
End DenseFacts.

(** * The statements of the specification *)

Lemma eps_pos : 0 < eps.
Proof. unfold eps. lra. Qed.

Lemma pow_pos_base (b e : R) : 0 < b -> pow b e = Rpower b e.
Proof. intros H. unfold pow. destruct (Rlt_dec 0 b); [reflexivity | contradiction]. Qed.

Lemma pow_positive (b e : R) : 0 < b -> 0 < pow b e.
Proof. intros H. rewrite pow_pos_base by assumption. apply exp_pos. Qed.

Lemma band_exponent_mono (F i j : nat) :
  (i <= j)%nat -> (0 < F)%nat ->
  2 * INR (i / 2) / INR F <= 2 * INR (j / 2) / INR F.
Proof.
  intros Hij HF.
  assert (Hd : (i / 2 <= j / 2)%nat) by (apply Nat.Div0.div_le_mono; assumption).
  apply le_INR in Hd. apply lt_INR in HF. simpl in HF.
  unfold Rdiv. apply Rmult_le_compat_r.
  - left. now apply Rinv_0_lt_compat.
  - lra.
Qed.

Lemma sum_upto_indicator (f : nat -> bool) (i : nat) :
  sum_upto (fun u => float_of_bool (f u)) i = INR (length (filter f (seq 0 (S i)))).
Proof.
  induction i as [|i IH].
  - cbn [sum_upto seq filter]. destruct (f 0%nat); simpl; lra.
  - cbn [sum_upto]. rewrite IH, (seq_S (S i)), filter_app, length_app, plus_INR.
    cbn [Nat.add filter]. destruct (f (S i)); simpl; lra.
Qed.

Lemma rank_occupancy (m : tensor bool) (line : nat -> list nat) (i : nat) :
  rank (fun u => data (occupancy m) (line u)) i = INR (occupied_upto m line i).
Proof.
  unfold rank, occupied_upto, occupancy, tmap. cbn [data].
  apply (sum_upto_indicator (fun u => negb (data m (line u)))).
Qed.

Lemma occupied_upto_zeros (s : list nat) (line : nat -> list nat) (i : nat) :
  occupied_upto (zeros s) line i = S i.
Proof.
  unfold occupied_upto, zeros. cbn [data negb].
  rewrite <- (length_seq (S i) 0) at 2. f_equal.
  apply forallb_filter_id. apply forallb_forall. reflexivity.
Qed.

Lemma occupied_upto_mono (m : tensor bool) (line : nat -> list nat) (i j : nat) :
  (i <= j)%nat -> (occupied_upto m line i <= occupied_upto m line j)%nat.
Proof.
  intros H. unfold occupied_upto.
  replace (S j) with (S i + (j - i))%nat by lia.
  rewrite seq_app, filter_app, length_app. lia.
Qed.

Lemma normalized_bounds (r m s : R) :
  0 <= r <= m -> 0 < s ->
  0 <= r / (m + eps) * s <= s /\ (0 < r -> 0 < r / (m + eps) * s).
Proof.
  intros [Hr Hm] Hs. pose proof eps_pos as He.
  assert (Hd : 0 < m + eps) by lra.
  assert (Hq0 : 0 <= r / (m + eps)).
  { apply Rmult_le_pos; [assumption | left; now apply Rinv_0_lt_compat]. }
  assert (Hq1 : r / (m + eps) <= 1).
  { apply Rmult_le_reg_r with (m + eps); [assumption|].
    unfold Rdiv. rewrite Rmult_assoc, Rinv_l by lra. lra. }
  split.
  - split; [now apply Rmult_le_pos; lra | nra].
  - intros Hr'. apply Rmult_lt_0_compat; [|assumption].
    apply Rmult_lt_0_compat; [assumption | now apply Rinv_0_lt_compat].
Qed.

(** C3: whatever the other parameters, constructing either encoder with a
    scale while [normalize] is false fails with the [ValueError] of the
    constructor, so no encoder exists on which [forward] could be called;
    with [normalize] true and any scale, or with the scale omitted (then
    [2 * PI]), construction succeeds. *)
Theorem init_scale_validation (n : nat) (t : R) :
  (forall s, PositionEmbeddingSine.init n t false (Some s) =
             inl (ValueError "normalize should be True if scale is passed")) /\
  (forall s, PositionEmbeddingSineSparse.init n t false (Some s) =
             inl (ValueError "normalize should be True if scale is passed")) /\
  (forall s, PositionEmbeddingSine.init n t true (Some s) = inr (mkConfig n t true s)) /\
  (forall s, PositionEmbeddingSineSparse.init n t true (Some s) = inr (mkConfig n t true s)) /\
  (forall nz, PositionEmbeddingSine.init n t nz None = inr (mkConfig n t nz (2 * PI))) /\
  (forall nz, PositionEmbeddingSineSparse.init n t nz None = inr (mkConfig n t nz (2 * PI))).
Proof.
  repeat split; intros; try reflexivity; destruct nz; reflexivity.
Qed.

(** C4, counterexample: the frequency table of a configuration with
    [temperature = 0] has the entry 0 at band 2, and the one of a
    configuration with [temperature = 1/2] decreases from band 0 to band 2. *)
Lemma dim_t_not_positive_nor_nondecreasing :
  ~ dim_t_positive /\ ~ dim_t_nondecreasing.
Proof.
  split; intros H.
  - specialize (H (mkConfig 4 0 false (2 * PI)) 2%nat ltac:(simpl; lia)).
    rewrite dim_t_data in H. cbn [num_pos_feats temperature] in H.
    change (2 / 2)%nat with 1%nat in H.
    unfold pow in H. destruct (Rlt_dec 0 0) as [H0 | _]; [lra|].
    destruct (Req_dec_T (2 * INR 1 / INR 4) 0) as [E | _].
    + simpl in E. lra.
    + lra.
  - specialize (H (mkConfig 4 (1/2) false (2 * PI)) 0%nat 2%nat
                  ltac:(lia) ltac:(simpl; lia)).
    rewrite !dim_t_data in H. cbn [num_pos_feats temperature] in H.
    rewrite !pow_pos_base in H by lra.
    change (0 / 2)%nat with 0%nat in H. change (2 / 2)%nat with 1%nat in H.
    replace (2 * INR 0 / INR 4) with 0 in H by (simpl; lra).
    replace (2 * INR 1 / INR 4) with (/ 2) in H by (simpl; lra).
    rewrite Rpower_O in H by lra.
    rewrite Rpower_sqrt in H by lra.
    assert (Hs : sqrt (1 / 2) < 1).
    { rewrite <- sqrt_1 at 2. apply sqrt_lt_1; lra. }
    lra.
Qed.

(** C4, amended: every entry of the frequency table is
    [temperature ^ (2 * (i // 2) / num_pos_feats)]; the entries are positive
    when the temperature is positive, and non-decreasing in [i] when the
    temperature is at least 1. *)
Theorem dim_t_formula_positive_nondecreasing (self : config) (i j : nat) :
  (i <= j)%nat -> (j < num_pos_feats self)%nat ->
  data (dim_t self) [i] =
    pow (temperature self) (2 * INR (i / 2) / INR (num_pos_feats self)) /\
  (0 < temperature self -> 0 < data (dim_t self) [i]) /\
  (1 <= temperature self -> data (dim_t self) [i] <= data (dim_t self) [j]).
Proof.
  intros Hij Hj. split; [apply dim_t_data|]. split.
  - intros HT. rewrite dim_t_data. now apply pow_positive.
  - intros HT. rewrite !dim_t_data, !pow_pos_base by lra.
    apply Rle_Rpower; [assumption|]. apply band_exponent_mono; lia.
Qed.

Lemma dim_t_formula_positive_nondecreasing_witness :
  let self := mkConfig 4 10000 false (2 * PI) in
  data (dim_t self) [0%nat] = pow 10000 (2 * INR (0 / 2) / INR 4) /\
  0 < data (dim_t self) [0%nat] /\
  data (dim_t self) [0%nat] <= data (dim_t self) [2%nat].
Proof.
  intros self.
  destruct (dim_t_formula_positive_nondecreasing self 0 2) as (E & Hp & Hm).
  - lia.
  - simpl. lia.
  - split; [exact E|]. split; [apply Hp | apply Hm]; simpl; lra.
Defined.

Lemma odd_half_pred F : Nat.odd F = true -> (F / 2 = (F - 1) / 2)%nat.
Proof.
  intros H. apply Nat.odd_spec in H. destruct H as [k ->].
  replace (2 * k + 1 - 1)%nat with (k * 2)%nat by lia.
  replace (2 * k + 1)%nat with (1 + k * 2)%nat by lia.
  rewrite Nat.div_add, Nat.div_mul by lia. reflexivity.
Qed.

(** C10: for an odd [num_pos_feats] the even-index slice of the bands has
    [(F + 1) / 2] entries and the odd-index slice [(F - 1) / 2], the stacking
    step raises, and so does [forward] of both encoders, on every input of
    the expected rank. *)
Theorem forward_needs_even_num_pos_feats
  {A : Type} (self : config) (x : tensor A) (mask : option (tensor bool))
  (coords : tensor R) (B C X Y Z N : nat) :
  shape x = [B; C; X; Y; Z] -> mask_fits mask B X Y Z -> shape coords = [N; 3%nat] ->
  Nat.odd (num_pos_feats self) = true ->
  let F := num_pos_feats self in
  (forall (pre : list nat) (p : tensor R), shape p = pre ++ [F] ->
     shape (slice_from (length pre) 0 2 p) = pre ++ [((F + 1) / 2)%nat] /\
     shape (slice_from (length pre) 1 2 p) = pre ++ [((F - 1) / 2)%nat] /\
     sin_cos (length pre) p =
       inl (RuntimeError "stack expects each tensor to be equal size")) /\
  PositionEmbeddingSine.forward self x mask =
    inl (RuntimeError "stack expects each tensor to be equal size") /\
  PositionEmbeddingSineSparse.forward self coords =
    inl (RuntimeError "stack expects each tensor to be equal size").
Proof.
  intros Hx Hm Hc Hodd F. split; [|split].
  - intros pre p Hp. destruct (sin_cos_shapes pre F p Hp) as [Ha Hb].
    split; [exact Ha|]. split.
    + cbn [tmap shape] in Hb. rewrite Hb. do 2 f_equal. now apply odd_half_pred.
    + exact (sin_cos_odd pre F p Hp Hodd).
  - now apply (DenseFacts.dense_forward_odd self x mask B C X Y Z).
  - now apply (SparseFacts.sparse_forward_odd self N coords).
Qed.

Lemma forward_needs_even_num_pos_feats_witness :
  let self := mkConfig 3 10000 false (2 * PI) in
  PositionEmbeddingSine.forward self (zeros [1; 1; 2; 1; 1]%nat) None =
    inl (RuntimeError "stack expects each tensor to be equal size") /\
  PositionEmbeddingSineSparse.forward self (of_rows [(1, 2, 3)]) =
    inl (RuntimeError "stack expects each tensor to be equal size").
Proof.
  intros self.
  destruct (forward_needs_even_num_pos_feats self (zeros [1; 1; 2; 1; 1]%nat) None
              (of_rows [(1, 2, 3)]) 1 1 2 1 1 1 eq_refl I eq_refl eq_refl)
    as (_ & Hd & Hs).
  split; assumption.
Defined.

(** C9: for an N x 3 coordinate tensor, whatever N and the rows, every
    output of the sparse encoder has shape [(N, 3 * num_pos_feats)], and for
    an even [num_pos_feats] there is one; for N = 0 it has 0 rows and
    [3 * num_pos_feats] columns. *)
Theorem sparse_output_shape (self : config) (coords : tensor R) (N : nat) :
  shape coords = [N; 3%nat] ->
  (Nat.even (num_pos_feats self) = true ->
   exists pos, PositionEmbeddingSineSparse.forward self coords = inr pos) /\
  (forall pos, PositionEmbeddingSineSparse.forward self coords = inr pos ->
     shape pos = [N; (3 * num_pos_feats self)%nat]).
Proof.
  intros Hs. split.
  - intros Hev.
    destruct (SparseFacts.sparse_forward_even self N coords Hs Hev) as (pos & E & _).
    now exists pos.
  - intros pos E. destruct (Nat.even (num_pos_feats self)) eqn:Hev.
    + destruct (SparseFacts.sparse_forward_even self N coords Hs Hev)
        as (pos' & E' & Hshape & _).
      congruence.
    + assert (Hodd : Nat.odd (num_pos_feats self) = true).
      { unfold Nat.odd. now rewrite Hev. }
      rewrite (SparseFacts.sparse_forward_odd self N coords Hs Hodd) in E.
      discriminate.
Qed.

Lemma sparse_output_shape_witness :
  exists pos,
    PositionEmbeddingSineSparse.forward (mkConfig 64 10000 false (2 * PI)) (of_rows []) =
      inr pos /\
    shape pos = [0; 3 * 64]%nat.
Proof.
  destruct (sparse_output_shape (mkConfig 64 10000 false (2 * PI)) (of_rows []) 0 eq_refl)
    as (Hret & Hshape).
  destruct (Hret eq_refl) as (pos & E).
  exists pos. split; [exact E | exact (Hshape pos E)].
Defined.

(** C7: a row of the sparse encoder's output depends only on the same row
    of the input: when row [i1] of [c1] and row [i2] of [c2] hold the same
    three coordinates, row [i1] of [forward c1] equals row [i2] of
    [forward c2], whatever the other rows and their number are (so a
    permutation of the input rows permutes the output rows, and dropping or
    adding rows changes nothing).  For an odd [num_pos_feats] both calls raise
    the same error. *)
Theorem sparse_rows_independent
  (self : config) (c1 c2 : tensor R) (N1 N2 i1 i2 : nat) :
  shape c1 = [N1; 3%nat] -> shape c2 = [N2; 3%nat] ->
  (i1 < N1)%nat -> (i2 < N2)%nat ->
  (forall a, (a < 3)%nat -> data c1 [i1; a] = data c2 [i2; a]) ->
  (Nat.even (num_pos_feats self) = true ->
   exists p1 p2,
     PositionEmbeddingSineSparse.forward self c1 = inr p1 /\
     PositionEmbeddingSineSparse.forward self c2 = inr p2 /\
     forall c, (c < 3 * num_pos_feats self)%nat -> data p1 [i1; c] = data p2 [i2; c]) /\
  (Nat.even (num_pos_feats self) = false ->
   exists e,
     PositionEmbeddingSineSparse.forward self c1 = inl e /\
     PositionEmbeddingSineSparse.forward self c2 = inl e).
Proof.
  intros H1 H2 Hi1 Hi2 Hrow. split; intros Hev.
  - destruct (SparseFacts.sparse_forward_even self N1 c1 H1 Hev) as (p1 & E1 & _ & D1).
    destruct (SparseFacts.sparse_forward_even self N2 c2 H2 Hev) as (p2 & E2 & _ & D2).
    exists p1, p2. split; [exact E1|]. split; [exact E2|].
    intros c Hc. rewrite D1, D2 by assumption.
    now rewrite !Hrow by lia.
  - assert (Hodd : Nat.odd (num_pos_feats self) = true).
    { unfold Nat.odd. now rewrite Hev. }
    eexists. split.
    + now apply (SparseFacts.sparse_forward_odd self N1 c1).
    + now apply (SparseFacts.sparse_forward_odd self N2 c2).
Qed.

Lemma sparse_rows_independent_witness :
  exists p1 p2,
    PositionEmbeddingSineSparse.forward (mkConfig 64 10000 false (2 * PI))
      (of_rows [(1, 2, 3); (4, 5, 6)]) = inr p1 /\
    PositionEmbeddingSineSparse.forward (mkConfig 64 10000 false (2 * PI))
      (of_rows [(1, 2, 3)]) = inr p2 /\
    forall c, (c < 3 * 64)%nat -> data p1 [0%nat; c] = data p2 [0%nat; c].
Proof.
  refine (proj1 (sparse_rows_independent (mkConfig 64 10000 false (2 * PI))
                   (of_rows [(1, 2, 3); (4, 5, 6)]) (of_rows [(1, 2, 3)])
                   2 1 0 0 eq_refl eq_refl _ _ _) eq_refl).
  - lia.
  - lia.
  - intros a Ha. reflexivity.
Defined.

(** C8: for [x] of shape (B, C, X, Y, Z) and a mask of shape (B, X, Y, Z) or
    none, every output of the dense encoder has shape (B, 3 F, X, Y, Z), its
    channels [0 .. F-1] being the encoding of the X coordinate, [F .. 2F-1]
    that of the Y coordinate and [2F .. 3F-1] that of the Z coordinate of the
    voxel; for an even [num_pos_feats] F there is an output. *)
Theorem dense_output_shape
  {A : Type} (self : config) (x : tensor A) (mask : option (tensor bool))
  (B C X Y Z : nat) :
  shape x = [B; C; X; Y; Z] -> mask_fits mask B X Y Z ->
  let F := num_pos_feats self in
  let occ := occupancy (effective_mask x mask) in
  let band v := fun q => v / data (dim_t self) [q] in
  (Nat.even F = true ->
   exists pos, PositionEmbeddingSine.forward self x mask = inr pos) /\
  (forall pos, PositionEmbeddingSine.forward self x mask = inr pos ->
     shape pos = [B; (3 * F)%nat; X; Y; Z] /\
     forall b i j k, (b < B)%nat -> (i < X)%nat -> (j < Y)%nat -> (k < Z)%nat ->
       let cx := dense_coordinate self (fun u => data occ [b; u; j; k]) X i in
       let cy := dense_coordinate self (fun u => data occ [b; i; u; k]) Y j in
       let cz := dense_coordinate self (fun u => data occ [b; i; j; u]) Z k in
       forall f, (f < F)%nat ->
         data pos [b; f; i; j; k] = sin_cos_at F (band cx) f /\
         data pos [b; (F + f)%nat; i; j; k] = sin_cos_at F (band cy) f /\
         data pos [b; (2 * F + f)%nat; i; j; k] = sin_cos_at F (band cz) f).
Proof.
  intros Hx Hm F occ band. split.
  - intros Hev.
    destruct (DenseFacts.dense_forward_even self x mask B C X Y Z Hx Hm Hev)
      as (pos & E & _).
    now exists pos.
  - intros pos E. destruct (Nat.even F) eqn:Hev.
    + destruct (DenseFacts.dense_forward_even self x mask B C X Y Z Hx Hm Hev)
        as (pos' & E' & Hshape & Hdata).
      assert (pos' = pos) by congruence. subst pos'.
      split; [exact Hshape|].
      intros b i j k Hb Hi Hj Hk cx cy cz f Hf. fold F in Hdata.
      rewrite !Hdata by (assumption || lia). unfold features. fold F.
      repeat split.
      * destruct (Nat.ltb_spec f F); [reflexivity | lia].
      * destruct (Nat.ltb_spec (F + f) F); [lia|].
        destruct (Nat.ltb_spec (F + f) (F + F)); [|lia].
        now replace (F + f - F)%nat with f by lia.
      * destruct (Nat.ltb_spec (2 * F + f) F); [lia|].
        destruct (Nat.ltb_spec (2 * F + f) (F + F)); [lia|].
        now replace (2 * F + f - F - F)%nat with f by lia.
    + assert (Hodd : Nat.odd (num_pos_feats self) = true).
      { unfold Nat.odd. fold F. now rewrite Hev. }
      rewrite (DenseFacts.dense_forward_odd self x mask B C X Y Z Hx Hm Hodd) in E.
      discriminate.
Qed.

Lemma dense_output_shape_witness :
  exists pos,
    PositionEmbeddingSine.forward (mkConfig 64 10000 false (2 * PI))
      (zeros [2; 16; 4; 5; 6]%nat) None = inr pos /\
    shape pos = [2; 3 * 64; 4; 5; 6]%nat.
Proof.
  destruct (dense_output_shape (mkConfig 64 10000 false (2 * PI))
              (zeros [2; 16; 4; 5; 6]%nat) None 2 16 4 5 6 eq_refl I)
    as (Hret & Hshape).
  destruct (Hret eq_refl) as (pos & E).
  exists pos. split; [exact E | exact (proj1 (Hshape pos E))].
Defined.

(** C2: with [normalize] set, the sparse encoder replaces each coordinate
    [c] of each axis by [c / (c + 1e-6) * scale], a function of that element
    alone, and it is these values that are divided by the frequency table to
    build the output. *)
Theorem sparse_self_normalization (self : config) (coords : tensor R) (N : nat) :
  shape coords = [N; 3%nat] -> normalize self = true ->
  exists ex ey ez,
    PositionEmbeddingSineSparse.embed self coords = inr (ex, ey, ez) /\
    (forall n, (n < N)%nat ->
       let normalized c := c / (c + eps) * scale self in
       data ex [n] = normalized (data coords [n; 0%nat]) /\
       data ey [n] = normalized (data coords [n; 1%nat]) /\
       data ez [n] = normalized (data coords [n; 2%nat])) /\
    (Nat.even (num_pos_feats self) = true ->
     exists pos, PositionEmbeddingSineSparse.forward self coords = inr pos /\
       forall n c, (n < N)%nat -> (c < 3 * num_pos_feats self)%nat ->
         data pos [n; c] = features self (data ex [n]) (data ey [n]) (data ez [n]) c).
Proof.
  intros Hs Hn.
  destruct (SparseFacts.sparse_embed_spec self N coords Hs)
    as (ex & ey & ez & E & _ & _ & _ & Hd).
  exists ex, ey, ez. split; [exact E|]. split.
  - intros n Hlt normalized. destruct (Hd n Hlt) as (Ex & Ey & Ez).
    unfold sparse_coordinate in Ex, Ey, Ez. rewrite Hn in Ex, Ey, Ez.
    repeat split; assumption.
  - intros Hev.
    destruct (SparseFacts.sparse_forward_even self N coords Hs Hev) as (pos & Ef & _ & Hf).
    exists pos. split; [exact Ef|].
    intros n c Hlt Hc. destruct (Hd n Hlt) as (Ex & Ey & Ez).
    rewrite Hf, Ex, Ey, Ez by assumption. reflexivity.
Qed.

Lemma sparse_self_normalization_witness :
  exists ex ey ez,
    PositionEmbeddingSineSparse.embed (mkConfig 2 10000 true 5) (of_rows [(1, 2, 3)]) =
      inr (ex, ey, ez) /\
    data ex [0%nat] = 1 / (1 + eps) * 5 /\
    data ey [0%nat] = 2 / (2 + eps) * 5 /\
    data ez [0%nat] = 3 / (3 + eps) * 5.
Proof.
  destruct (sparse_self_normalization (mkConfig 2 10000 true 5) (of_rows [(1, 2, 3)]) 1
              eq_refl eq_refl) as (ex & ey & ez & E & Hd & _).
  exists ex, ey, ez. split; [exact E|]. apply (Hd 0%nat). lia.
Defined.

(** C6: without normalisation the coordinate volumes of the dense encoder
    are the inclusive counts of unmasked voxels along X, Y and Z up to the
    voxel; with no mask and a 1 x C x 2 x 1 x 1 input the X volume is 1 at
    the first voxel and 2 at the second, and the Y and Z volumes are 1. *)
Theorem dense_cumulative_occupancy
  {A : Type} (n : nat) (t s : R) (x : tensor A) (mask : option (tensor bool))
  (B C X Y Z : nat) :
  shape x = [B; C; X; Y; Z] -> mask_fits mask B X Y Z ->
  let self := mkConfig n t false s in
  let m := effective_mask x mask in
  exists ex ey ez,
    PositionEmbeddingSine.embed self x mask = inr (ex, ey, ez) /\
    shape ex = [B; X; Y; Z] /\ shape ey = [B; X; Y; Z] /\ shape ez = [B; X; Y; Z] /\
    (forall b i j k, (b < B)%nat -> (i < X)%nat -> (j < Y)%nat -> (k < Z)%nat ->
       data ex [b; i; j; k] = INR (occupied_upto m (fun u => [b; u; j; k]) i) /\
       data ey [b; i; j; k] = INR (occupied_upto m (fun u => [b; i; u; k]) j) /\
       data ez [b; i; j; k] = INR (occupied_upto m (fun u => [b; i; j; u]) k)) /\
    (mask = None -> B = 1%nat -> X = 2%nat -> Y = 1%nat -> Z = 1%nat ->
       data ex [0; 0; 0; 0]%nat = 1 /\ data ex [0; 1; 0; 0]%nat = 2 /\
       data ey [0; 0; 0; 0]%nat = 1 /\ data ey [0; 1; 0; 0]%nat = 1 /\
       data ez [0; 0; 0; 0]%nat = 1 /\ data ez [0; 1; 0; 0]%nat = 1).
Proof.
  intros Hx Hm self m.
  destruct (DenseFacts.dense_embed_spec self x mask B C X Y Z Hx Hm)
    as (ex & ey & ez & E & Hsx & Hsy & Hsz & Hd).
  assert (Hcount : forall b i j k,
             (b < B)%nat -> (i < X)%nat -> (j < Y)%nat -> (k < Z)%nat ->
             data ex [b; i; j; k] = INR (occupied_upto m (fun u => [b; u; j; k]) i) /\
             data ey [b; i; j; k] = INR (occupied_upto m (fun u => [b; i; u; k]) j) /\
             data ez [b; i; j; k] = INR (occupied_upto m (fun u => [b; i; j; u]) k)).
  { intros b i j k Hb Hi Hj Hk. destruct (Hd b i j k Hb Hi Hj Hk) as (Ex & Ey & Ez).
    unfold dense_coordinate in Ex, Ey, Ez. cbn [normalize self] in Ex, Ey, Ez.
    rewrite Ex, Ey, Ez. fold m.
    rewrite (rank_occupancy m (fun u => [b; u; j; k])),
      (rank_occupancy m (fun u => [b; i; u; k])),
      (rank_occupancy m (fun u => [b; i; j; u])).
    repeat split. }
  exists ex, ey, ez. split; [exact E|]. repeat (split; [assumption|]).
  intros -> -> -> -> ->.
  destruct (Hcount 0 0 0 0)%nat as (Ex0 & Ey0 & Ez0); try lia.
  destruct (Hcount 0 1 0 0)%nat as (Ex1 & Ey1 & Ez1); try lia.
  rewrite Ex0, Ey0, Ez0, Ex1, Ey1, Ez1. unfold m. cbn [effective_mask].
  rewrite !occupied_upto_zeros. simpl. repeat split; lra.
Qed.

Lemma dense_cumulative_occupancy_witness :
  exists ex ey ez,
    PositionEmbeddingSine.embed (mkConfig 2 10000 false (2 * PI))
      (zeros [1; 8; 2; 1; 1]%nat) None = inr (ex, ey, ez) /\
    data ex [0; 0; 0; 0]%nat = 1 /\ data ex [0; 1; 0; 0]%nat = 2 /\
    data ey [0; 0; 0; 0]%nat = 1 /\ data ey [0; 1; 0; 0]%nat = 1 /\
    data ez [0; 0; 0; 0]%nat = 1 /\ data ez [0; 1; 0; 0]%nat = 1.
Proof.
  destruct (dense_cumulative_occupancy 2 10000 (2 * PI) (zeros [1; 8; 2; 1; 1]%nat) None
              1 8 2 1 1 eq_refl I) as (ex & ey & ez & E & _ & _ & _ & _ & Hc).
  exists ex, ey, ez. split; [exact E|]. apply Hc; reflexivity.
Defined.

(** C5, counterexample: in a 1x2x1x1 mask whose first voxel is padding,
    that voxel's normalised X coordinate is 0, outside (0, scale]. *)
Lemma masked_voxel_normalizes_to_zero : ~ dense_normalized_ranks_positive.
Proof.
  intros H.
  pose (self := mkConfig 2 10000 true (2 * PI)).
  destruct (DenseFacts.dense_embed_spec self (zeros [1; 1; 2; 1; 1]%nat)
              (Some first_voxel_masked) 1 1 2 1 1 eq_refl eq_refl)
    as (ex & ey & ez & E & _ & _ & _ & Hd).
  assert (Hs : 0 < scale self) by (simpl; pose proof PI_RGT_0; lra).
  destruct (H self first_voxel_masked 1 2 1 1 eq_refl eq_refl Hs ex ey ez E 0 0 0 0)%nat
    as ((Hpos & _) & _); try lia.
  destruct (Hd 0 0 0 0)%nat as (Ex & _); try lia.
  rewrite Ex in Hpos. unfold dense_coordinate, rank in Hpos.
  cbn in Hpos. lra.
Qed.

(** C5, amended: with [normalize] set and a positive scale, each coordinate
    volume of the dense encoder is the voxel's rank divided by the last rank
    along the same axis (the largest one) plus 1e-6, times the scale; the
    result lies in [0, scale], and in (0, scale] at every voxel whose rank is
    at least 1. *)
Theorem dense_normalization
  {A : Type} (self : config) (x : tensor A) (mask : option (tensor bool))
  (B C X Y Z : nat) :
  shape x = [B; C; X; Y; Z] -> mask_fits mask B X Y Z ->
  normalize self = true -> 0 < scale self ->
  let m := effective_mask x mask in
  let normalized (line : nat -> list nat) (n p : nat) (v : R) :=
    v = INR (occupied_upto m line p) / (INR (occupied_upto m line (n - 1)) + eps)
        * scale self /\
    (occupied_upto m line p <= occupied_upto m line (n - 1))%nat /\
    0 <= v <= scale self /\
    ((0 < occupied_upto m line p)%nat -> 0 < v) in
  exists ex ey ez,
    PositionEmbeddingSine.embed self x mask = inr (ex, ey, ez) /\
    forall b i j k, (b < B)%nat -> (i < X)%nat -> (j < Y)%nat -> (k < Z)%nat ->
      normalized (fun u => [b; u; j; k]) X i (data ex [b; i; j; k]) /\
      normalized (fun u => [b; i; u; k]) Y j (data ey [b; i; j; k]) /\
      normalized (fun u => [b; i; j; u]) Z k (data ez [b; i; j; k]).
Proof.
  intros Hx Hm Hn Hs m normalized.
  destruct (DenseFacts.dense_embed_spec self x mask B C X Y Z Hx Hm)
    as (ex & ey & ez & E & _ & _ & _ & Hd).
  exists ex, ey, ez. split; [exact E|].
  assert (Hnorm : forall line n p v, (p < n)%nat ->
            v = dense_coordinate self (fun u => data (occupancy m) (line u)) n p ->
            normalized line n p v).
  { intros line n p v Hp ->. unfold dense_coordinate. rewrite Hn.
    rewrite !(rank_occupancy m line).
    pose proof (occupied_upto_mono m line p (n - 1) ltac:(lia)) as Hle.
    pose proof (pos_INR (occupied_upto m line p)) as H0.
    pose proof (le_INR _ _ Hle) as H1.
    destruct (normalized_bounds (INR (occupied_upto m line p))
                (INR (occupied_upto m line (n - 1))) (scale self)
                (conj H0 H1) Hs) as (Hb & Hp').
    split; [reflexivity|]. split; [exact Hle|]. split; [exact Hb|].
    intros Hc. apply Hp'. change 0 with (INR 0). now apply lt_INR. }
  intros b i j k Hb Hi Hj Hk. destruct (Hd b i j k Hb Hi Hj Hk) as (Ex & Ey & Ez).
  fold m in Ex, Ey, Ez.
  split; [|split].
  - now apply (Hnorm (fun u => [b; u; j; k])).
  - now apply (Hnorm (fun u => [b; i; u; k])).
  - now apply (Hnorm (fun u => [b; i; j; u])).
Qed.

Lemma dense_normalization_witness :
  exists ex ey ez,
    PositionEmbeddingSine.embed (mkConfig 2 10000 true 5) (zeros [1; 8; 2; 1; 1]%nat) None =
      inr (ex, ey, ez) /\
    0 <= data ex [0; 1; 0; 0]%nat <= 5 /\ 0 < data ex [0; 1; 0; 0]%nat.
Proof.
  destruct (dense_normalization (mkConfig 2 10000 true 5) (zeros [1; 8; 2; 1; 1]%nat) None
              1 8 2 1 1 eq_refl I eq_refl ltac:(simpl; lra))
    as (ex & ey & ez & E & Hd).
  exists ex, ey, ez. split; [exact E|].
  destruct (Hd 0 1 0 0)%nat as ((_ & _ & Hb & Hp) & _); try lia.
  split; [exact Hb|]. apply Hp. cbn [effective_mask]. rewrite occupied_upto_zeros. lia.
Defined.

(** C1, evaluation at a failing input: with [num_pos_feats = 4] and a
    coordinate 0 (a point at the origin for the sparse encoder, a padding
    voxel for the dense one), feature 1 of the X encoding is
    [sin (0 / dim_t[2]) = 0]: the sines of bands 0 and 2 come first and the
    cosines of bands 1 and 3 after them, where interleaving would put
    [cos (0 / dim_t[1]) = 1] at position 1. *)
Theorem sin_cos_blocks_not_interleaved :
  let self := mkConfig 4 10000 false (2 * PI) in
  (exists pos,
     PositionEmbeddingSineSparse.forward self (of_rows [(0, 0, 0)]) = inr pos /\
     shape pos = [1; 12]%nat /\
     data pos [0; 1]%nat = sin (0 / data (dim_t self) [2%nat]) /\
     data pos [0; 1]%nat <> cos (0 / data (dim_t self) [1%nat])) /\
  (exists pos,
     PositionEmbeddingSine.forward self (zeros [1; 1; 1; 1; 1]%nat)
       (Some all_masked) = inr pos /\
     shape pos = [1; 12; 1; 1; 1]%nat /\
     data pos [0; 1; 0; 0; 0]%nat = sin (0 / data (dim_t self) [2%nat]) /\
     data pos [0; 1; 0; 0; 0]%nat <> cos (0 / data (dim_t self) [1%nat])).
Proof.
  intros self.
  assert (Hz : forall d, 0 / d = 0) by (intros d; unfold Rdiv; apply Rmult_0_l).
  split.
  - destruct (SparseFacts.sparse_forward_even self 1 (of_rows [(0, 0, 0)]) eq_refl eq_refl)
      as (pos & E & Hshape & Hdata).
    exists pos. split; [exact E|]. split; [exact Hshape|].
    assert (E1 : data pos [0; 1]%nat = sin (0 / data (dim_t self) [2%nat])).
    { rewrite Hdata by (simpl; lia). reflexivity. }
    split; [exact E1|]. rewrite E1, !Hz, sin_0, cos_0. lra.
  - destruct (DenseFacts.dense_forward_even self (zeros [1; 1; 1; 1; 1]%nat)
                (Some all_masked) 1 1 1 1 1
                eq_refl eq_refl eq_refl) as (pos & E & Hshape & Hdata).
    exists pos. split; [exact E|]. split; [exact Hshape|].
    assert (E1 : data pos [0; 1; 0; 0; 0]%nat = sin (0 / data (dim_t self) [2%nat])).
    { rewrite Hdata by (simpl; lia). reflexivity. }
    split; [exact E1|]. rewrite E1, !Hz, sin_0, cos_0. lra.
Qed.

(** * Further properties of the encoders *)

Lemma sum_upto_ext (f g : nat -> R) (n : nat) :
  (forall u, (u <= n)%nat -> f u = g u) -> sum_upto f n = sum_upto g n.
Proof.
  induction n as [|n IH]; intros H; cbn [sum_upto].
  - apply H. lia.
  - rewrite IH, H by (intros; auto with arith). reflexivity.
Qed.


Lemma dim_t_pair self (k : nat) :
  data (dim_t self) [(2 * k + 1)%nat] = data (dim_t self) [(2 * k)%nat].
Proof.
  rewrite !dim_t_data.
  replace ((2 * k + 1) / 2)%nat with k
    by (apply (Nat.div_unique (2 * k + 1) 2 k 1); lia).
  replace (2 * k / 2)%nat with k
    by (apply (Nat.div_unique (2 * k) 2 k 0); lia).
  reflexivity.
Qed.

Lemma dim_t_first self : data (dim_t self) [0%nat] = 1 /\ data (dim_t self) [1%nat] = 1.
Proof.
  assert (H0 : data (dim_t self) [0%nat] = 1).
  { rewrite dim_t_data. change (0 / 2)%nat with 0%nat. cbn [INR].
    replace (2 * 0 / INR (num_pos_feats self)) with 0
      by (unfold Rdiv; now rewrite Rmult_0_r, Rmult_0_l).
    unfold pow. destruct (Rlt_dec 0 (temperature self)) as [HT | _].
    - now apply Rpower_O.
    - destruct (Req_dec_T 0 0); [reflexivity | contradiction]. }
  split; [exact H0|]. rewrite <- H0. apply (dim_t_pair self 0).
Qed.




Lemma features_axis self (cx cy cz : R) (f : nat) :
  (f < num_pos_feats self)%nat ->
  let F := num_pos_feats self in
  let band v := fun q => v / data (dim_t self) [q] in
  features self cx cy cz f = sin_cos_at F (band cx) f /\
  features self cx cy cz (F + f) = sin_cos_at F (band cy) f /\
  features self cx cy cz (2 * F + f) = sin_cos_at F (band cz) f.
Proof.
  intros Hf F band. unfold features. fold F. repeat split.
  - destruct (Nat.ltb_spec f F); [reflexivity | lia].
  - destruct (Nat.ltb_spec (F + f) F); [lia|].
    destruct (Nat.ltb_spec (F + f) (F + F)); [|lia].
    now replace (F + f - F)%nat with f by lia.
  - destruct (Nat.ltb_spec (2 * F + f) F); [lia|].
    destruct (Nat.ltb_spec (2 * F + f) (F + F)); [lia|].
    now replace (2 * F + f - F - F)%nat with f by lia.
Qed.








Lemma not_even_odd (n : nat) : Nat.even n = false -> Nat.odd n = true.
Proof. intros H. unfold Nat.odd. now rewrite H. Qed.

(** Whenever the sparse [forward] returns, [num_pos_feats] is even and the
    output is the one described by [features]. *)
Lemma sparse_forward_inv self N (coords pos : tensor R) :
  shape coords = [N; 3%nat] ->
  PositionEmbeddingSineSparse.forward self coords = inr pos ->
  Nat.even (num_pos_feats self) = true /\
  shape pos = [N; (3 * num_pos_feats self)%nat] /\
  forall n c, (n < N)%nat -> (c < 3 * num_pos_feats self)%nat ->
    data pos [n; c] =
    features self (sparse_coordinate self (data coords [n; 0%nat]))
      (sparse_coordinate self (data coords [n; 1%nat]))
      (sparse_coordinate self (data coords [n; 2%nat])) c.
Proof.
  intros Hs E. destruct (Nat.even (num_pos_feats self)) eqn:Hev.
  - destruct (SparseFacts.sparse_forward_even self N coords Hs Hev)
      as (pos' & E' & Hshape & Hd).
    assert (pos' = pos) by congruence. subst pos'. auto.
  - rewrite (SparseFacts.sparse_forward_odd self N coords Hs (not_even_odd _ Hev)) in E.
    discriminate.
Qed.

(** Whenever the dense [forward] returns, [num_pos_feats] is even and the
    output is the one described by [features]. *)
Lemma dense_forward_inv {A : Type} self (x : tensor A) (mask : option (tensor bool))
  B C X Y Z (pos : tensor R) :
  shape x = [B; C; X; Y; Z] -> mask_fits mask B X Y Z ->
  PositionEmbeddingSine.forward self x mask = inr pos ->
  let occ := occupancy (effective_mask x mask) in
  Nat.even (num_pos_feats self) = true /\
  shape pos = [B; (3 * num_pos_feats self)%nat; X; Y; Z] /\
  forall b c i j k, (b < B)%nat -> (c < 3 * num_pos_feats self)%nat ->
    (i < X)%nat -> (j < Y)%nat -> (k < Z)%nat ->
    data pos [b; c; i; j; k] =
    features self
      (dense_coordinate self (fun u => data occ [b; u; j; k]) X i)
      (dense_coordinate self (fun u => data occ [b; i; u; k]) Y j)
      (dense_coordinate self (fun u => data occ [b; i; j; u]) Z k) c.
Proof.
  intros Hx Hm E occ. destruct (Nat.even (num_pos_feats self)) eqn:Hev.
  - destruct (DenseFacts.dense_forward_even self x mask B C X Y Z Hx Hm Hev)
      as (pos' & E' & Hshape & Hd).
    assert (pos' = pos) by congruence. subst pos'. auto.
  - rewrite (DenseFacts.dense_forward_odd self x mask B C X Y Z Hx Hm
               (not_even_odd _ Hev)) in E.
    discriminate.
Qed.







(** X5: the dense encoder raises an [IndexError] when no mask is given and
    [x] has fewer than five dimensions, and when the mask has fewer than
    four. *)
Theorem dense_forward_rank_errors
  {A : Type} (self : config) (x : tensor A) (m : tensor bool) :
  ((length (shape x) < 5)%nat ->
   PositionEmbeddingSine.forward self x None =
     inl (IndexError "Dimension out of range")) /\
  ((length (shape m) < 4)%nat ->
   PositionEmbeddingSine.forward self x (Some m) =
     inl (IndexError "Dimension out of range")).
Proof.
  split; intros H.
  - unfold PositionEmbeddingSine.forward, PositionEmbeddingSine.embed, size.
    destruct (shape x) as [|a [|b [|c [|d [|e r]]]]]; cbn in H; try lia; reflexivity.
  - unfold PositionEmbeddingSine.forward, PositionEmbeddingSine.embed, cumsum, dim, tmap.
    cbn [bind ret shape].
    destruct (shape m) as [|a [|b [|c [|d r]]]]; cbn in H; try lia; reflexivity.
Qed.

Lemma dense_forward_rank_errors_witness :
  PositionEmbeddingSine.forward (mkConfig 64 10000 false (2 * PI))
    (zeros [2; 4; 5; 6]%nat) None = inl (IndexError "Dimension out of range") /\
  PositionEmbeddingSine.forward (mkConfig 64 10000 false (2 * PI))
    (zeros [2; 16; 4; 5; 6]%nat) (Some (zeros [4; 5; 6]%nat)) =
    inl (IndexError "Dimension out of range").
Proof.
  split.
  - apply (proj1 (dense_forward_rank_errors (mkConfig 64 10000 false (2 * PI))
                    (zeros [2; 4; 5; 6]%nat) (zeros []))). simpl. lia.
  - apply (proj2 (dense_forward_rank_errors (mkConfig 64 10000 false (2 * PI))
                    (zeros [2; 16; 4; 5; 6]%nat) (zeros [4; 5; 6]%nat))). simpl. lia.
Defined.

(** X6: the sparse encoder raises an [IndexError] when the coordinate
    tensor has fewer than three columns (or fewer than two dimensions); with
    more than three columns it returns what it returns on the first three,
    the others being never read. *)
Theorem sparse_forward_columns (self : config) (coords : tensor R) (N K : nat) :
  ((nth 1 (shape coords) 0 < 3)%nat ->
   PositionEmbeddingSineSparse.forward self coords =
     inl (IndexError "index is out of bounds")) /\
  (shape coords = [N; K] -> (3 <= K)%nat ->
   PositionEmbeddingSineSparse.forward self coords =
   PositionEmbeddingSineSparse.forward self (mkTensor [N; 3%nat] (data coords))).
Proof.
  split.
  - intros H. unfold PositionEmbeddingSineSparse.forward,
      PositionEmbeddingSineSparse.embed, select.
    destruct (nth 1 (shape coords) 0%nat) as [|[|[|k]]]; try lia; reflexivity.
  - intros Hs HK. unfold PositionEmbeddingSineSparse.forward,
      PositionEmbeddingSineSparse.embed, select.
    rewrite Hs. cbn [shape nth remove_at data].
    destruct K as [|[|[|K]]]; try lia. reflexivity.
Qed.

Lemma sparse_forward_columns_witness :
  PositionEmbeddingSineSparse.forward (mkConfig 64 10000 false (2 * PI))
    (mkTensor [5; 2]%nat (fun _ => 1)) = inl (IndexError "index is out of bounds") /\
  PositionEmbeddingSineSparse.forward (mkConfig 64 10000 false (2 * PI))
    (mkTensor [5; 4]%nat (fun idx => INR (nth 1 idx 0%nat))) =
  PositionEmbeddingSineSparse.forward (mkConfig 64 10000 false (2 * PI))
    (mkTensor [5; 3]%nat (fun idx => INR (nth 1 idx 0%nat))).
Proof.
  split.
  - apply (proj1 (sparse_forward_columns (mkConfig 64 10000 false (2 * PI))
                    (mkTensor [5; 2]%nat (fun _ => 1)) 5 2)). simpl. lia.
  - apply (proj2 (sparse_forward_columns (mkConfig 64 10000 false (2 * PI))
                    (mkTensor [5; 4]%nat (fun idx => INR (nth 1 idx 0%nat))) 5 4)).
    + reflexivity.
    + lia.
Defined.

Lemma rank_nonneg (m : tensor bool) (line : nat -> list nat) (i : nat) :
  0 <= rank (fun u => data (occupancy m) (line u)) i.
Proof. rewrite rank_occupancy. apply pos_INR. Qed.

Lemma rank_mono (m : tensor bool) (line : nat -> list nat) (i i' : nat) :
  (i <= i')%nat ->
  rank (fun u => data (occupancy m) (line u)) i <=
  rank (fun u => data (occupancy m) (line u)) i'.
Proof.
  intros H. rewrite !rank_occupancy. apply le_INR. now apply occupied_upto_mono.
Qed.

Lemma rank_masked (m : tensor bool) (line : nat -> list nat) (i : nat) :
  data m (line (S i)) = true ->
  rank (fun u => data (occupancy m) (line u)) (S i) =
  rank (fun u => data (occupancy m) (line u)) i.
Proof.
  intros H. unfold rank, occupancy, tmap. cbn [sum_upto data]. rewrite H.
  cbn [negb float_of_bool]. lra.
Qed.

Lemma dense_coordinate_mono self (m : tensor bool) (line : nat -> list nat) (n i i' : nat) :
  (i <= i')%nat -> (normalize self = true -> 0 <= scale self) ->
  dense_coordinate self (fun u => data (occupancy m) (line u)) n i <=
  dense_coordinate self (fun u => data (occupancy m) (line u)) n i'.
Proof.
  intros Hi Hs. unfold dense_coordinate.
  pose proof (rank_mono m line i i' Hi) as Hr.
  destruct (normalize self); [|exact Hr].
  specialize (Hs eq_refl).
  pose proof (rank_nonneg m line (n - 1)) as Hn. pose proof eps_pos as He.
  apply Rmult_le_compat_r; [assumption|].
  apply Rmult_le_compat_r; [|assumption].
  left. apply Rinv_0_lt_compat. lra.
Qed.

Lemma dense_coordinate_masked self (m : tensor bool) (line : nat -> list nat) (n i : nat) :
  data m (line (S i)) = true ->
  dense_coordinate self (fun u => data (occupancy m) (line u)) n (S i) =
  dense_coordinate self (fun u => data (occupancy m) (line u)) n i.
Proof. intros H. unfold dense_coordinate. now rewrite (rank_masked m line i H). Qed.

(** X7: each coordinate volume of the dense encoder is non-decreasing along
    its own axis (with normalisation, for a non-negative scale), and a
    padding voxel gets the coordinate of its predecessor along the axis. *)
Theorem dense_coordinates_nondecreasing
  {A : Type} (self : config) (x : tensor A) (mask : option (tensor bool))
  (B C X Y Z : nat) :
  shape x = [B; C; X; Y; Z] -> mask_fits mask B X Y Z ->
  (normalize self = true -> 0 <= scale self) ->
  let m := effective_mask x mask in
  exists ex ey ez,
    PositionEmbeddingSine.embed self x mask = inr (ex, ey, ez) /\
    (forall b i j k, (b < B)%nat -> (i < X)%nat -> (j < Y)%nat -> (k < Z)%nat ->
       (forall i', (i <= i')%nat -> (i' < X)%nat ->
          data ex [b; i; j; k] <= data ex [b; i'; j; k]) /\
       (forall j', (j <= j')%nat -> (j' < Y)%nat ->
          data ey [b; i; j; k] <= data ey [b; i; j'; k]) /\
       (forall k', (k <= k')%nat -> (k' < Z)%nat ->
          data ez [b; i; j; k] <= data ez [b; i; j; k'])) /\
    (forall b i j k, (b < B)%nat -> (i < X)%nat -> (j < Y)%nat -> (k < Z)%nat ->
       ((S i < X)%nat -> data m [b; S i; j; k] = true ->
          data ex [b; S i; j; k] = data ex [b; i; j; k]) /\
       ((S j < Y)%nat -> data m [b; i; S j; k] = true ->
          data ey [b; i; S j; k] = data ey [b; i; j; k]) /\
       ((S k < Z)%nat -> data m [b; i; j; S k] = true ->
          data ez [b; i; j; S k] = data ez [b; i; j; k])).
Proof.
  intros Hx Hm Hs m.
  destruct (DenseFacts.dense_embed_spec self x mask B C X Y Z Hx Hm)
    as (ex & ey & ez & E & _ & _ & _ & Hd).
  fold m in Hd.
  exists ex, ey, ez. split; [exact E|]. split.
  - intros b i j k Hb Hi Hj Hk. destruct (Hd b i j k Hb Hi Hj Hk) as (Ex & Ey & Ez).
    split; [|split].
    + intros i' Hle Hi'. destruct (Hd b i' j k Hb Hi' Hj Hk) as (Ex' & _).
      rewrite Ex, Ex'. now apply (dense_coordinate_mono self m (fun u => [b; u; j; k])).
    + intros j' Hle Hj'. destruct (Hd b i j' k Hb Hi Hj' Hk) as (_ & Ey' & _).
      rewrite Ey, Ey'. now apply (dense_coordinate_mono self m (fun u => [b; i; u; k])).
    + intros k' Hle Hk'. destruct (Hd b i j k' Hb Hi Hj Hk') as (_ & _ & Ez').
      rewrite Ez, Ez'. now apply (dense_coordinate_mono self m (fun u => [b; i; j; u])).
  - intros b i j k Hb Hi Hj Hk. destruct (Hd b i j k Hb Hi Hj Hk) as (Ex & Ey & Ez).
    split; [|split].
    + intros Hi' Hmask. destruct (Hd b (S i) j k Hb Hi' Hj Hk) as (Ex' & _).
      rewrite Ex, Ex'. now apply (dense_coordinate_masked self m (fun u => [b; u; j; k])).
    + intros Hj' Hmask. destruct (Hd b i (S j) k Hb Hi Hj' Hk) as (_ & Ey' & _).
      rewrite Ey, Ey'. now apply (dense_coordinate_masked self m (fun u => [b; i; u; k])).
    + intros Hk' Hmask. destruct (Hd b i j (S k) Hb Hi Hj Hk') as (_ & _ & Ez').
      rewrite Ez, Ez'. now apply (dense_coordinate_masked self m (fun u => [b; i; j; u])).
Qed.

Lemma dense_coordinates_nondecreasing_witness :
  exists ex ey ez,
    PositionEmbeddingSine.embed (mkConfig 2 10000 true 5) (zeros [1; 1; 3; 1; 1]%nat)
      (Some (mkTensor [1; 3; 1; 1]%nat (fun idx => (nth 1 idx 0 =? 1)%nat))) =
      inr (ex, ey, ez) /\
    data ex [0; 0; 0; 0]%nat <= data ex [0; 2; 0; 0]%nat /\
    data ex [0; 1; 0; 0]%nat = data ex [0; 0; 0; 0]%nat.
Proof.
  destruct (dense_coordinates_nondecreasing (mkConfig 2 10000 true 5)
              (zeros [1; 1; 3; 1; 1]%nat)
              (Some (mkTensor [1; 3; 1; 1]%nat (fun idx => (nth 1 idx 0 =? 1)%nat)))
              1 1 3 1 1 eq_refl eq_refl ltac:(intros _; simpl; lra))
    as (ex & ey & ez & E & Hmono & Hmask).
  exists ex, ey, ez. split; [exact E|]. split.
  - destruct (Hmono 0 0 0 0)%nat as (Hx & _); try lia. apply Hx; lia.
  - destruct (Hmask 0 0 0 0)%nat as (Hx & _); try lia. apply Hx; [lia | reflexivity].
Defined.



Lemma dense_coordinate_ext self (f g : nat -> R) (n i : nat) :
  (i < n)%nat -> (forall u, (u < n)%nat -> f u = g u) ->
  dense_coordinate self f n i = dense_coordinate self g n i.
Proof.
  intros Hi H. unfold dense_coordinate, rank.
  rewrite (sum_upto_ext f g i), (sum_upto_ext f g (n - 1)); auto; intros; apply H; lia.
Qed.

(** X9: the feature vector of a voxel depends only on the mask along the
    three axis-parallel lines through the voxel: two masks (possibly of
    different batch sizes, at different batch positions) that agree on these
    lines give the voxel the same features. *)
Theorem dense_voxel_depends_on_its_three_lines
  {A A' : Type} (self : config) (x : tensor A) (x' : tensor A') (m m' : tensor bool)
  (B B' X Y Z b b' i j k : nat) :
  shape m = [B; X; Y; Z] -> shape m' = [B'; X; Y; Z] ->
  (b < B)%nat -> (b' < B')%nat -> (i < X)%nat -> (j < Y)%nat -> (k < Z)%nat ->
  (forall u, (u < X)%nat -> data m [b; u; j; k] = data m' [b'; u; j; k]) ->
  (forall u, (u < Y)%nat -> data m [b; i; u; k] = data m' [b'; i; u; k]) ->
  (forall u, (u < Z)%nat -> data m [b; i; j; u] = data m' [b'; i; j; u]) ->
  forall pos pos',
    PositionEmbeddingSine.forward self x (Some m) = inr pos ->
    PositionEmbeddingSine.forward self x' (Some m') = inr pos' ->
    forall c, (c < 3 * num_pos_feats self)%nat ->
      data pos [b; c; i; j; k] = data pos' [b'; c; i; j; k].
Proof.
  intros Hm Hm' Hb Hb' Hi Hj Hk Lx Ly Lz pos pos' E E' c Hc.
  change (PositionEmbeddingSine.forward self x (Some m)) with
    (PositionEmbeddingSine.forward self (zeros [B; 1; X; Y; Z]%nat) (Some m)) in E.
  change (PositionEmbeddingSine.forward self x' (Some m')) with
    (PositionEmbeddingSine.forward self (zeros [B'; 1; X; Y; Z]%nat) (Some m')) in E'.
  destruct (dense_forward_inv self (zeros [B; 1; X; Y; Z]%nat) (Some m) B 1 X Y Z pos eq_refl Hm E) as (_ & _ & D).
  destruct (dense_forward_inv self (zeros [B'; 1; X; Y; Z]%nat) (Some m') B' 1 X Y Z pos'
              eq_refl Hm' E')
    as (_ & _ & D').
  rewrite D, D' by assumption. cbn [effective_mask].
  unfold occupancy, tmap. cbn [data].
  f_equal; apply dense_coordinate_ext; auto; intros u Hu; cbn beta.
  - now rewrite Lx.
  - now rewrite Ly.
  - now rewrite Lz.
Qed.

Lemma dense_voxel_depends_on_its_three_lines_witness :
  exists pos pos',
    PositionEmbeddingSine.forward (mkConfig 2 10000 false (2 * PI))
      (zeros [2; 1; 2; 1; 1]%nat)
      (Some (mkTensor [2; 2; 1; 1]%nat (fun idx => (nth 0 idx 0 =? 1)%nat))) = inr pos /\
    PositionEmbeddingSine.forward (mkConfig 2 10000 false (2 * PI))
      (zeros [1; 1; 2; 1; 1]%nat) (Some (zeros [1; 2; 1; 1]%nat)) = inr pos' /\
    forall c, (c < 3 * 2)%nat -> data pos [0%nat; c; 1%nat; 0%nat; 0%nat] =
                                 data pos' [0%nat; c; 1%nat; 0%nat; 0%nat].
Proof.
  destruct (DenseFacts.dense_forward_even (mkConfig 2 10000 false (2 * PI))
              (zeros [2; 1; 2; 1; 1]%nat)
              (Some (mkTensor [2; 2; 1; 1]%nat (fun idx => (nth 0 idx 0 =? 1)%nat)))
              2 1 2 1 1 eq_refl eq_refl eq_refl) as (pos & E & _).
  destruct (DenseFacts.dense_forward_even (mkConfig 2 10000 false (2 * PI))
              (zeros [1; 1; 2; 1; 1]%nat) (Some (zeros [1; 2; 1; 1]%nat))
              1 1 2 1 1 eq_refl eq_refl eq_refl) as (pos' & E' & _).
  exists pos, pos'. split; [exact E|]. split; [exact E'|].
  apply (dense_voxel_depends_on_its_three_lines (mkConfig 2 10000 false (2 * PI))
           (zeros [2; 1; 2; 1; 1]%nat) (zeros [1; 1; 2; 1; 1]%nat)
           (mkTensor [2; 2; 1; 1]%nat (fun idx => (nth 0 idx 0 =? 1)%nat))
           (zeros [1; 2; 1; 1]%nat) 2 1 2 1 1 0 0 1 0 0 eq_refl eq_refl);
    try lia; try assumption; intros; reflexivity.
Defined.

Lemma sin_cos_at_zero (F : nat) (p : nat -> R) (f : nat) :
  (forall q, p q = 0) ->
  sin_cos_at F p f = if (f <? F / 2)%nat then 0 else 1.
Proof.
  intros Hp. unfold sin_cos_at.
  destruct (f <? F / 2)%nat; rewrite Hp; [apply sin_0 | apply cos_0].
Qed.

Lemma rank_all_masked (m : tensor bool) (line : nat -> list nat) (i : nat) :
  (forall u, (u <= i)%nat -> data m (line u) = true) ->
  rank (fun u => data (occupancy m) (line u)) i = 0.
Proof.
  intros H. unfold rank. rewrite (sum_upto_ext _ (fun _ => 0)).
  - clear H. induction i as [|i IH]; cbn [sum_upto]; [reflexivity | rewrite IH; lra].
  - intros u Hu. unfold occupancy, tmap. cbn [data]. now rewrite H.
Qed.

(** X10: a coordinate 0 (a voxel with no occupied voxel at or before it
    along X, a point with x = 0) is encoded, for a positive temperature, as
    [F/2] zeros followed by [F/2] ones in the X block, with or without
    normalisation. *)
Theorem zero_coordinate_encoding
  {A : Type} (self : config) (x : tensor A) (m : tensor bool) (coords : tensor R)
  (B X Y Z N b i j k n : nat) :
  shape m = [B; X; Y; Z] -> (b < B)%nat -> (i < X)%nat -> (j < Y)%nat -> (k < Z)%nat ->
  (forall u, (u <= i)%nat -> data m [b; u; j; k] = true) ->
  shape coords = [N; 3%nat] -> (n < N)%nat -> data coords [n; 0%nat] = 0 ->
  0 < temperature self ->
  let F := num_pos_feats self in
  (forall pos, PositionEmbeddingSine.forward self x (Some m) = inr pos ->
     forall f, (f < F)%nat ->
       data pos [b; f; i; j; k] = if (f <? F / 2)%nat then 0 else 1) /\
  (forall pos, PositionEmbeddingSineSparse.forward self coords = inr pos ->
     forall f, (f < F)%nat ->
       data pos [n; f] = if (f <? F / 2)%nat then 0 else 1).
Proof.
  intros Hm Hb Hi Hj Hk Hmask Hc Hn Hzero HT F. subst F.
  assert (Hz : forall d, 0 / d = 0) by (intros d; unfold Rdiv; apply Rmult_0_l).
  split.
  - intros pos E f Hf.
    change (PositionEmbeddingSine.forward self x (Some m)) with
      (PositionEmbeddingSine.forward self (zeros [B; 1; X; Y; Z]%nat) (Some m)) in E.
    destruct (dense_forward_inv self (zeros [B; 1; X; Y; Z]%nat) (Some m) B 1 X Y Z pos eq_refl Hm E)
      as (_ & _ & D).
    rewrite D by (assumption || lia). cbn [effective_mask].
    destruct (features_axis self
                (dense_coordinate self (fun u => data (occupancy m) [b; u; j; k]) X i)
                (dense_coordinate self (fun u => data (occupancy m) [b; i; u; k]) Y j)
                (dense_coordinate self (fun u => data (occupancy m) [b; i; j; u]) Z k)
                f Hf) as (Ef & _).
    rewrite Ef. apply sin_cos_at_zero. intros q.
    unfold dense_coordinate.
    rewrite (rank_all_masked m (fun u => [b; u; j; k]) i Hmask).
    destruct (normalize self); [rewrite Hz, Rmult_0_l|]; apply Hz.
  - intros pos E f Hf.
    destruct (sparse_forward_inv self N coords pos Hc E) as (_ & _ & D).
    rewrite D by (assumption || lia).
    destruct (features_axis self
                (sparse_coordinate self (data coords [n; 0%nat]))
                (sparse_coordinate self (data coords [n; 1%nat]))
                (sparse_coordinate self (data coords [n; 2%nat])) f Hf) as (Ef & _).
    rewrite Ef. apply sin_cos_at_zero. intros q.
    unfold sparse_coordinate. rewrite Hzero.
    destruct (normalize self); [rewrite Hz, Rmult_0_l|]; apply Hz.
Qed.

Lemma zero_coordinate_encoding_witness :
  exists pos,
    PositionEmbeddingSineSparse.forward (mkConfig 4 10000 false (2 * PI))
      (of_rows [(0, 7, 9)]) = inr pos /\
    data pos [0; 0]%nat = 0 /\ data pos [0; 1]%nat = 0 /\
    data pos [0; 2]%nat = 1 /\ data pos [0; 3]%nat = 1.
Proof.
  destruct (SparseFacts.sparse_forward_even (mkConfig 4 10000 false (2 * PI)) 1
              (of_rows [(0, 7, 9)]) eq_refl eq_refl) as (pos & E & _).
  exists pos. split; [exact E|].
  destruct (zero_coordinate_encoding (mkConfig 4 10000 false (2 * PI))
              (zeros [1; 1; 1; 1; 1]%nat) all_masked (of_rows [(0, 7, 9)])
              1 1 1 1 1 0 0 0 0 0 eq_refl) as (_ & Hs);
    try lia; try reflexivity; try (simpl; lra).
  repeat split; apply (Hs pos E); simpl; lia.
Defined.




(** X12: the frequency table starts at 1, bands [2k] and [2k + 1] have the
    same divisor, and for a temperature above 1 every divisor lies in
    [1, temperature). *)
Theorem frequency_table_range (self : config) (i k : nat) :
  (i < num_pos_feats self)%nat -> (2 * k + 1 < num_pos_feats self)%nat ->
  data (dim_t self) [0%nat] = 1 /\
  data (dim_t self) [(2 * k + 1)%nat] = data (dim_t self) [(2 * k)%nat] /\
  (1 < temperature self -> 1 <= data (dim_t self) [i] < temperature self).
Proof.
  intros Hi Hk. split; [|split].
  - apply dim_t_first.
  - apply dim_t_pair.
  - intros HT. rewrite dim_t_data, pow_pos_base by lra.
    assert (HF : 0 < INR (num_pos_feats self)) by (apply lt_0_INR; lia).
    pose proof (INR_half_bounds i) as (Hlo & _).
    assert (Hlt : INR i < INR (num_pos_feats self)) by now apply lt_INR.
    assert (He0 : 0 <= 2 * INR (i / 2) / INR (num_pos_feats self)).
    { apply Rmult_le_pos; [|left; now apply Rinv_0_lt_compat].
      pose proof (pos_INR (i / 2)). lra. }
    assert (He1 : 2 * INR (i / 2) / INR (num_pos_feats self) < 1).
    { apply Rmult_lt_reg_r with (INR (num_pos_feats self)); [assumption|].
      unfold Rdiv. rewrite Rmult_assoc, Rinv_l by lra. lra. }
    split.
    + rewrite <- (Rpower_O (temperature self)) at 1 by lra.
      apply Rle_Rpower; lra.
    + rewrite <- (Rpower_1 (temperature self)) at 2 by lra.
      apply Rpower_lt; assumption.
Qed.

Lemma frequency_table_range_witness :
  let self := mkConfig 64 10000 false (2 * PI) in
  data (dim_t self) [0%nat] = 1 /\
  data (dim_t self) [63%nat] = data (dim_t self) [62%nat] /\
  1 <= data (dim_t self) [63%nat] < 10000.
Proof.
  intros self.
  destruct (frequency_table_range self 63 31 ltac:(simpl; lia) ltac:(simpl; lia))
    as (H0 & Hp & Hr).
  split; [exact H0|]. split; [exact Hp|]. apply Hr. simpl. lra.
Defined.



Lemma sin_cos_at_first (F : nat) (p : nat -> R) :
  (0 < F / 2)%nat ->
  sin_cos_at F p 0 = sin (p 0%nat) /\ sin_cos_at F p (F / 2) = cos (p 1%nat).
Proof.
  intros H. unfold sin_cos_at. split.
  - destruct (Nat.ltb_spec 0 (F / 2)); [reflexivity | lia].
  - destruct (Nat.ltb_spec (F / 2) (F / 2)); [lia|].
    now replace (2 * (F / 2 - F / 2) + 1)%nat with 1%nat by lia.
Qed.

Lemma features_first self (cx cy cz : R) :
  Nat.even (num_pos_feats self) = true -> (0 < num_pos_feats self)%nat ->
  let F := num_pos_feats self in
  let g := features self cx cy cz in
  (g 0%nat = sin cx /\ g (F / 2)%nat = cos cx) /\
  (g F = sin cy /\ g (F + F / 2)%nat = cos cy) /\
  (g (2 * F)%nat = sin cz /\ g (2 * F + F / 2)%nat = cos cz).
Proof.
  intros Hev HF F g. subst F g. pose proof (even_double_half _ Hev) as E.
  destruct (dim_t_first self) as (D0 & D1).
  assert (Hh : (0 < num_pos_feats self / 2)%nat) by lia.
  assert (Hd : forall v, v / 1 = v) by (intros; field).
  destruct (features_axis self cx cy cz 0 HF) as (A1 & A2 & A3).
  destruct (features_axis self cx cy cz (num_pos_feats self / 2) ltac:(lia))
    as (B1 & B2 & B3).
  rewrite Nat.add_0_r in A2, A3.
  rewrite A1, A2, A3, B1, B2, B3.
  repeat split;
    first [ rewrite (proj1 (sin_cos_at_first _ _ Hh)), D0, Hd
          | rewrite (proj2 (sin_cos_at_first _ _ Hh)), D1, Hd ]; reflexivity.
Qed.

(** X13: feature 0 of each axis block of an output is the sine of the
    coordinate computed for that axis and feature [F/2] its cosine (the
    first two divisors are 1), for both encoders. *)
Theorem first_band_is_sine_and_cosine_of_the_coordinate
  {A : Type} (self : config) (x : tensor A) (mask : option (tensor bool))
  (coords : tensor R) (B C X Y Z N : nat) :
  shape x = [B; C; X; Y; Z] -> mask_fits mask B X Y Z -> shape coords = [N; 3%nat] ->
  (0 < num_pos_feats self)%nat ->
  let F := num_pos_feats self in
  (forall pos ex ey ez,
     PositionEmbeddingSine.forward self x mask = inr pos ->
     PositionEmbeddingSine.embed self x mask = inr (ex, ey, ez) ->
     forall b i j k, (b < B)%nat -> (i < X)%nat -> (j < Y)%nat -> (k < Z)%nat ->
       let v c := data pos [b; c; i; j; k] in
       (v 0%nat = sin (data ex [b; i; j; k]) /\
        v (F / 2)%nat = cos (data ex [b; i; j; k])) /\
       (v F = sin (data ey [b; i; j; k]) /\
        v (F + F / 2)%nat = cos (data ey [b; i; j; k])) /\
       (v (2 * F)%nat = sin (data ez [b; i; j; k]) /\
        v (2 * F + F / 2)%nat = cos (data ez [b; i; j; k]))) /\
  (forall pos ex ey ez,
     PositionEmbeddingSineSparse.forward self coords = inr pos ->
     PositionEmbeddingSineSparse.embed self coords = inr (ex, ey, ez) ->
     forall n, (n < N)%nat ->
       let v c := data pos [n; c] in
       (v 0%nat = sin (data ex [n]) /\ v (F / 2)%nat = cos (data ex [n])) /\
       (v F = sin (data ey [n]) /\ v (F + F / 2)%nat = cos (data ey [n])) /\
       (v (2 * F)%nat = sin (data ez [n]) /\ v (2 * F + F / 2)%nat = cos (data ez [n]))).
Proof.
  intros Hx Hm Hc HF F. subst F. split.
  - intros pos ex ey ez E Ee b i j k Hb Hi Hj Hk v. subst v.
    destruct (dense_forward_inv self x mask B C X Y Z pos Hx Hm E) as (Hev & _ & D).
    pose proof (even_double_half _ Hev) as E2.
    destruct (DenseFacts.dense_embed_spec self x mask B C X Y Z Hx Hm)
      as (ex' & ey' & ez' & Ee' & _ & _ & _ & Hd).
    assert (Heq : (ex', ey', ez') = (ex, ey, ez)) by congruence.
    injection Heq as -> -> ->.
    destruct (Hd b i j k Hb Hi Hj Hk) as (-> & -> & ->).
    cbv beta. rewrite !D by (assumption || lia).
    now apply features_first.
  - intros pos ex ey ez E Ee n Hn v. subst v.
    destruct (sparse_forward_inv self N coords pos Hc E) as (Hev & _ & D).
    pose proof (even_double_half _ Hev) as E2.
    destruct (SparseFacts.sparse_embed_spec self N coords Hc)
      as (ex' & ey' & ez' & Ee' & _ & _ & _ & Hd).
    assert (Heq : (ex', ey', ez') = (ex, ey, ez)) by congruence.
    injection Heq as -> -> ->.
    destruct (Hd n Hn) as (-> & -> & ->).
    cbv beta. rewrite !D by (assumption || lia).
    now apply features_first.
Qed.

Lemma first_band_is_sine_and_cosine_of_the_coordinate_witness :
  exists pos,
    PositionEmbeddingSineSparse.forward (mkConfig 64 10000 false (2 * PI))
      (of_rows [(1, 2, 3)]) = inr pos /\
    data pos [0; 0]%nat = sin 1 /\ data pos [0; 32]%nat = cos 1 /\
    data pos [0; 64]%nat = sin 2 /\ data pos [0; 128]%nat = sin 3.
Proof.
  destruct (SparseFacts.sparse_forward_even (mkConfig 64 10000 false (2 * PI)) 1
              (of_rows [(1, 2, 3)]) eq_refl eq_refl) as (pos & E & _).
  exists pos. split; [exact E|].
  destruct (first_band_is_sine_and_cosine_of_the_coordinate
              (mkConfig 64 10000 false (2 * PI)) (zeros [1; 1; 1; 1; 1]%nat) None
              (of_rows [(1, 2, 3)]) 1 1 1 1 1 1 eq_refl I eq_refl ltac:(simpl; lia))
    as (_ & Hs).
  destruct (Hs pos _ _ _ E eq_refl 0%nat ltac:(lia)) as ((H1 & H2) & (H3 & _) & (H4 & _)).
  repeat split; assumption.
Defined.

Lemma dense_coordinate_no_mask {A : Type} self (x : tensor A) (line : nat -> list nat)
  (n p : nat) :
  (p < n)%nat -> normalize self = false ->
  dense_coordinate self (fun u => data (occupancy (effective_mask x None)) (line u)) n p =
  INR (S p).
Proof.
  intros Hp Hn. unfold dense_coordinate. rewrite Hn, rank_occupancy.
  cbn [effective_mask]. now rewrite occupied_upto_zeros.
Qed.

(** X14: without normalisation and without a mask, the dense encoder gives
    voxel (i, j, k) the features the sparse encoder gives the point
    (i + 1, j + 1, k + 1). *)
Theorem dense_encoding_is_sparse_encoding_of_one_based_index
  {A : Type} (self : config) (x : tensor A) (coords : tensor R)
  (B C X Y Z N b i j k n : nat) :
  shape x = [B; C; X; Y; Z] -> shape coords = [N; 3%nat] ->
  normalize self = false ->
  (b < B)%nat -> (i < X)%nat -> (j < Y)%nat -> (k < Z)%nat -> (n < N)%nat ->
  data coords [n; 0%nat] = INR (i + 1) ->
  data coords [n; 1%nat] = INR (j + 1) ->
  data coords [n; 2%nat] = INR (k + 1) ->
  forall pos pos',
    PositionEmbeddingSine.forward self x None = inr pos ->
    PositionEmbeddingSineSparse.forward self coords = inr pos' ->
    forall c, (c < 3 * num_pos_feats self)%nat ->
      data pos [b; c; i; j; k] = data pos' [n; c].
Proof.
  intros Hx Hc Hn Hb Hi Hj Hk Hlt C0 C1 C2 pos pos' E E' c Hcc.
  destruct (dense_forward_inv self x None B C X Y Z pos Hx I E) as (_ & _ & D).
  destruct (sparse_forward_inv self N coords pos' Hc E') as (_ & _ & D').
  rewrite D, D' by assumption.
  rewrite (dense_coordinate_no_mask self x (fun u => [b; u; j; k]) X i Hi Hn),
    (dense_coordinate_no_mask self x (fun u => [b; i; u; k]) Y j Hj Hn),
    (dense_coordinate_no_mask self x (fun u => [b; i; j; u]) Z k Hk Hn).
  unfold sparse_coordinate. rewrite Hn, C0, C1, C2.
  now rewrite !Nat.add_1_r.
Qed.

Lemma dense_encoding_is_sparse_encoding_of_one_based_index_witness :
  exists pos pos',
    PositionEmbeddingSine.forward (mkConfig 64 10000 false (2 * PI))
      (zeros [1; 8; 2; 2; 2]%nat) None = inr pos /\
    PositionEmbeddingSineSparse.forward (mkConfig 64 10000 false (2 * PI))
      (of_rows [(1, 2, 1)]) = inr pos' /\
    forall c, (c < 3 * 64)%nat -> data pos [0%nat; c; 0%nat; 1%nat; 0%nat] =
                                  data pos' [0%nat; c].
Proof.
  destruct (DenseFacts.dense_forward_even (mkConfig 64 10000 false (2 * PI))
              (zeros [1; 8; 2; 2; 2]%nat) None 1 8 2 2 2 eq_refl I eq_refl)
    as (pos & E & _).
  destruct (SparseFacts.sparse_forward_even (mkConfig 64 10000 false (2 * PI)) 1
              (of_rows [(1, 2, 1)]) eq_refl eq_refl) as (pos' & E' & _).
  exists pos, pos'. split; [exact E|]. split; [exact E'|].
  apply (dense_encoding_is_sparse_encoding_of_one_based_index
           (mkConfig 64 10000 false (2 * PI)) (zeros [1; 8; 2; 2; 2]%nat)
           (of_rows [(1, 2, 1)]) 1 8 2 2 2 1 0 0 1 0 0 eq_refl eq_refl eq_refl);
    try lia; try assumption; simpl; lra.
Defined.
